(** * Product Performance Hub ([app.py]): data generation and derived views

    A shallow embedding of the Streamlit script [app.py].  The script builds
    a seven-row product table from random draws (cached by [st.cache_data]),
    then derives KPIs, a sorted comparison grid and a per-category roll-up
    from it on every rerun.

    Conventions of the embedding:
    - Python and NumPy integers are [Z].  Every integer the script computes
      is a sum of at most a few dozen draws below 1500 in magnitude, far
      from the int64 limits, so no wrap-around is written out.
    - The two ambient random generators (NumPy's global [np.random] state
      and Python's [random] module) are explicit state: each is an entropy
      tape with a cursor, threaded through a state-and-exception monad.
    - Floats are idealised as exact rationals ([Q]).  A float that the script
      rounds to one decimal ([round(x, 1)]) is stored as its integer number
      of tenths, so 4.2 is [42]. *)

From Stdlib Require Import ZArith QArith Qround Qabs Lia Lqa DecimalString DecimalNat.
From Stdlib Require Import Sorting.Permutation Sorting.Sorted.
From stdpp Require Import base option list gmap strings sorting.

Local Open Scope Z_scope.

(** ** Exceptions and the state-and-exception monad *)

Inductive exn : Type :=
  | KeyError (key : string)
  | ValueError (msg : string)
  | IndexError
  | ZeroDivisionError
  | StreamlitAPIException.

(** The outcome of a computation: a value or an exception, and in both
    cases the state it leaves behind. *)
Inductive result (S A : Type) : Type :=
  | Return (a : A) (s : S)
  | Raise (e : exn) (s : S).
Arguments Return {S A} a s.
Arguments Raise {S A} e s.

Definition M (S A : Type) : Type := S -> result S A.

Definition ret {S A} (a : A) : M S A := fun s => Return a s.

Definition bind {S A B} (m : M S A) (k : A -> M S B) : M S B :=
  fun s => match m s with
           | Return a s' => k a s'
           | Raise e s' => Raise e s'
           end.

Definition raise {S A} (e : exn) : M S A := fun s => Raise e s.

Notation "x <- m ;; k" := (bind m (fun x => k))
  (at level 100, m at next level, right associativity).

(** [for x in xs: ys.append(body(x))], left to right. *)
Fixpoint for_each {S A B} (body : A -> M S B) (xs : list A) : M S (list B) :=
  match xs with
  | [] => ret []
  | x :: xs' => y <- body x ;; ys <- for_each body xs' ;; ret (y :: ys)
  end.

(** [n] successive runs of the same computation (a [size=n] draw). *)
Fixpoint repeat_draw {S A} (m : M S A) (n : nat) : M S (list A) :=
  match n with
  | O => ret []
  | S n' => y <- m ;; ys <- repeat_draw m n' ;; ret (y :: ys)
  end.

(** [m] returns on every state, with a value satisfying [P]. *)
Definition always_returns {S A} (m : M S A) (P : A -> Prop) : Prop :=
  forall s, exists a s', m s = Return a s' /\ P a.

(** ** Random sources *)

(** An entropy tape: the raw words the generator will emit, and how many
    have been consumed. *)
Record bitgen : Type := BitGen { raw : nat -> N; cursor : nat }.

Definition next_raw (g : bitgen) : N * bitgen :=
  (raw g (cursor g), BitGen (raw g) (S (cursor g))).

(** The process-wide random state: NumPy's and Python's generators. *)
Record world : Type := World { np_random : bitgen; py_random : bitgen }.

Definition np_next : M world N :=
  fun w => let '(r, g) := next_raw (np_random w) in Return r (World g (py_random w)).

Definition py_next : M world N :=
  fun w => let '(r, g) := next_raw (py_random w) in Return r (World (np_random w) g).

(** [np.random.randint(low, high)]: an integer of the half-open interval
    from [low] (included) to [high] (excluded); [ValueError] when the
    interval is empty. *)
Definition np_random_randint (low high : Z) : M world Z :=
  if high <=? low then raise (ValueError "low >= high")
  else r <- np_next ;; ret (low + Z.of_N r mod (high - low)).

(** [np.random.randint(low, high, size=n)]. *)
Definition np_random_randint_size (low high : Z) (n : nat) : M world (list Z) :=
  if high <=? low then raise (ValueError "low >= high")
  else repeat_draw (np_random_randint low high) n.

(** [random.randint(a, b)]: both endpoints included. *)
Definition random_randint (a b : Z) : M world Z :=
  if b <? a then raise (ValueError "empty range for randrange()")
  else r <- py_next ;; ret (a + Z.of_N r mod (b - a + 1)).

(** [random.choice(seq)]. *)
Definition random_choice {A} (seq : list A) : M world A :=
  match seq with
  | [] => raise IndexError
  | x :: _ =>
      r <- py_next ;;
      ret (nth (Z.to_nat (Z.of_N r mod Z.of_nat (length seq))) seq x)
  end.

(** [random.random()]: a fraction of 2^53 in the interval from 0 (included)
    to 1 (excluded). *)
Definition random_random : M world Q :=
  r <- py_next ;; ret (Qmake (Z.of_N r mod 2 ^ 53) (2 ^ 53)).

(** [random.uniform(a, b)] is [a + (b - a) * random()]. *)
Definition random_uniform (a b : Q) : M world Q :=
  u <- random_random ;; ret (a + (b - a) * u)%Q.

(** A standard gamma variate of shape 1: a positive number. *)
Definition np_standard_gamma : M world Q :=
  r <- np_next ;; ret (Qmake (Z.of_N r + 1) (2 ^ 32)).

Definition Qsum (xs : list Q) : Q := foldr Qplus 0%Q xs.

(** [np.random.dirichlet(np.ones(k), size=1)[0]]: [k] gamma variates
    scaled by the inverse of their sum. *)
Definition np_random_dirichlet_ones (k : nat) : M world (list Q) :=
  val <- repeat_draw np_standard_gamma k ;;
  let invacc := (/ Qsum val)%Q in
  ret (map (fun v => v * invacc)%Q val).

(** ** NumPy array functions *)

Definition Zsum (xs : list Z) : Z := foldr Z.add 0 xs.

Fixpoint cumsum_from (acc : Z) (xs : list Z) : list Z :=
  match xs with
  | [] => []
  | x :: xs' => (acc + x) :: cumsum_from (acc + x) xs'
  end.

(** [np.cumsum(a)] *)
Definition np_cumsum (xs : list Z) : list Z := cumsum_from 0 xs.

(** [np.clip(a, a_min, a_max)], either bound possibly [None]. *)
Definition clip1 (a_min a_max : option Z) (x : Z) : Z :=
  let lo := match a_min with Some m => Z.max x m | None => x end in
  match a_max with Some m => Z.min lo m | None => lo end.

Definition np_clip (xs : list Z) (a_min a_max : option Z) : list Z :=
  map (clip1 a_min a_max) xs.

(** The slice [a[-k:]]. *)
Definition last_k {A} (k : nat) (xs : list A) : list A :=
  drop (length xs - k) xs.

(** Round half to even, to the nearest integer. *)
Definition round_half_even (x : Q) : Z :=
  let f := Qfloor x in
  match (x - inject_Z f ?= 1 # 2)%Q with
  | Lt => f
  | Gt => f + 1
  | Eq => if Z.even f then f else f + 1
  end.

(** [round(x, 1)], as a number of tenths. *)
Definition round1 (x : Q) : Z := round_half_even (x * 10).

(** ** The product table *)

(** One row of [df_products]; [ID] is the index column.  [Rating] and the
    values of [Channels_pct] are numbers of tenths. *)
Record product : Type := Product {
  ID : string;
  Name : string;
  Category : string;
  YTD_Revenue : Z;
  YTD_Units : Z;
  Revenue_Trend : list Z;
  Units_Trend : list Z;
  Rating : Z;
  Stock : string;
  Channels_pct : gmap string Z;
  Target_Met_pct : Z
}.

Abbreviation DataFrame := (list product).

(** A dict built from its items in order: a later item overwrites an
    earlier one with the same key. *)
Definition py_dict {V} (items : list (string * V)) : gmap string V :=
  foldl (fun d kv => <[kv.1 := kv.2]> d) ∅ items.

(** [d[k]] *)
Definition dict_getitem {S V} (d : gmap string V) (k : string) : M S V :=
  match d !! k with
  | Some v => ret v
  | None => raise (KeyError k)
  end.

Definition product_names : list string :=
  ["Aurora Buds"; "Nova Mug"; "Zenith Mat"; "Lumos Lamp"; "Terra SSD";
   "Helios Charger"; "Orion Mousepad"]%string.

Definition product_categories_map : gmap string string :=
  py_dict [("Aurora Buds", "Electronics"); ("Nova Mug", "Home Goods");
           ("Zenith Mat", "Wellness"); ("Lumos Lamp", "Office");
           ("Terra SSD", "Electronics"); ("Helios Charger", "Electronics");
           ("Orion Mousepad", "Office")]%string.

Definition channels : list string :=
  ["Organic"; "Paid Social"; "Email"; "Affiliate"]%string.

Definition num_months : nat := 12.

(** The two draws of a trend, [np.random.randint(a, b)] and then
    [np.random.randint(c, d, size=num_months)], in evaluation order. *)
Definition walk_draws (a b c d : Z) : M world (Z * list Z) :=
  start <- np_random_randint a b ;;
  steps <- np_random_randint_size c d num_months ;;
  ret (start, steps).

(** [np.clip(start + np.cumsum(steps), floor, None)] *)
Definition walk (floor : Z) (draws : Z * list Z) : list Z :=
  np_clip (map (Z.add draws.1) (np_cumsum draws.2)) (Some floor) None.

Definition clipped_walk (a b c d floor : Z) : M world (list Z) :=
  draws <- walk_draws a b c d ;; ret (walk floor draws).

Definition rev_trend : M world (list Z) := clipped_walk 300 1500 (-100) 150 50.
Definition units_trend : M world (list Z) := clipped_walk 10 80 (-10) 20 5.

(** [np.random.dirichlet(np.ones(len(channels)), size=1)[0] * 100] *)
Definition chan_dist : M world (list Q) :=
  p <- np_random_dirichlet_ones (length channels) ;;
  ret (map (fun x => x * 100)%Q p).

(** [f"P{i+201}"] *)
Definition product_id (i : nat) : string :=
  "P" +:+ NilZero.string_of_uint (Nat.to_uint (i + 201)).

(** The body of the loop over [enumerate(product_names)]. *)
Definition product_row (i : nat) (name : string) : M world product :=
  rev <- rev_trend ;;
  units <- units_trend ;;
  dist <- chan_dist ;;
  cat <- dict_getitem product_categories_map name ;;
  u <- random_uniform 3.5 4.9 ;;
  stock <- random_choice ["In Stock"; "Low"; "Out"]%string ;;
  target <- random_randint 60 125 ;;
  ret {| ID := product_id i; Name := name; Category := cat;
         YTD_Revenue := Zsum (last_k 3 rev);
         YTD_Units := Zsum (last_k 3 units);
         Revenue_Trend := rev;
         Units_Trend := units;
         Rating := round1 u; Stock := stock;
         Channels_pct := py_dict (zip channels (map round1 dist));
         Target_Met_pct := target |}.

(** [enumerate(xs)] *)
Definition enumerate {A} (xs : list A) : list (nat * A) :=
  zip (seq 0 (length xs)) xs.

(** [pd.DataFrame(rows).set_index("ID")]: a frame made from no rows has no
    columns, and [set_index] then raises [KeyError]. *)
Definition set_index_ID {S} (rows : list product) : M S DataFrame :=
  match rows with
  | [] => raise (KeyError "ID")
  | _ => ret rows
  end.

Definition generate_initial_data : M world DataFrame :=
  products_data <- for_each (fun '(i, name) => product_row i name)
                            (enumerate product_names) ;;
  set_index_ID products_data.

(** ** Caching: [@st.cache_data] *)

(** The state of the server process: the random generators and the cache
    entry of [generate_initial_data] (it takes no arguments, so the cache
    has at most this one entry). *)
Record process : Type := Process { rand : world; cache_data : option DataFrame }.

(** The decorated function: a hit returns the stored value and runs
    nothing; a miss runs the body and stores what it returned.  A body
    that raises stores nothing. *)
Definition st_cache_data (body : M world DataFrame) : M process DataFrame :=
  fun p =>
    match cache_data p with
    | Some df => Return df p
    | None =>
        match body (rand p) with
        | Return df w => Return df (Process w (Some df))
        | Raise e w => Raise e (Process w None)
        end
    end.

(** ** Sidebar parameters *)

(** The options of the "Sort products by:" select box. *)
Inductive sort_option : Type := By_YTD_Revenue | By_Rating | By_YTD_Units_Sold.

(** [sort_by_options[selected]], as the column it reads. *)
Definition sort_column (o : sort_option) : product -> Z :=
  match o with
  | By_YTD_Revenue => YTD_Revenue
  | By_Rating => Rating
  | By_YTD_Units_Sold => YTD_Units
  end.

Record widgets : Type := Widgets {
  selected_sort_by : sort_option;
  sort_ascending : bool;
  num_comparison_cols : Z;
  target_good_threshold : Z;
  target_warning_threshold : Z
}.

(** ** Overall KPIs *)

Inductive pyfloat : Type := Finite (q : Q) | NaN.

(** [Series.sum()] of an integer column. *)
Definition series_sum (xs : list Z) : Z := Zsum xs.

(** [Series.mean()] of a column of tenths: pandas answers NaN for an
    empty column. *)
Definition series_mean (tenths : list Z) : pyfloat :=
  match tenths with
  | [] => NaN
  | _ => Finite (inject_Z (Zsum tenths) / (10 * inject_Z (Z.of_nat (length tenths))))
  end.

Definition total_revenue (df : DataFrame) : Z := series_sum (map YTD_Revenue df).
Definition total_units (df : DataFrame) : Z := series_sum (map YTD_Units df).
Definition avg_rating (df : DataFrame) : pyfloat := series_mean (map Rating df).

(** ** Sorting *)

(** The algorithm behind [kind=...]: from the keys to the positions, in
    the order that sorts the keys.  Neither call of the script passes
    [kind], so both use the default, ['quicksort'], which pandas documents
    as not stable.  The algorithm is kept abstract: the development relies
    only on what it guarantees. *)
Class ArgSort : Type := argsort : list Z -> list nat.

(** What every [kind] guarantees: the answer lists each position once and
    reads the keys in non-decreasing order. *)
Class ArgSortLaws (Algo : ArgSort) : Prop := {
  argsort_perm : forall ks, Permutation (argsort ks) (seq 0 (length ks));
  argsort_sorted : forall ks,
    StronglySorted Z.le (map (fun i => nth i ks 0) (argsort ks))
}.

(** What only some kinds guarantee (['mergesort'], ['stable']): positions
    holding equal keys are listed in increasing order. *)
Class ArgSortStable (Algo : ArgSort) : Prop :=
  argsort_stable : forall ks,
    StronglySorted (fun i j => nth i ks 0 = nth j ks 0 -> (i < j)%nat) (argsort ks).

(** [nargsort]: a descending sort reverses the keys, sorts them ascending,
    maps the positions back and reverses the answer. *)
Definition nargsort {Algo : ArgSort} (ks : list Z) (ascending : bool) : list nat :=
  if ascending then argsort ks
  else
    let n := length ks in
    rev (map (fun j => n - 1 - j)%nat (argsort (rev ks))).

(** [xs[i]] for a position [i]. *)
Definition row_at {S A} (xs : list A) (i : nat) : M S A :=
  match xs !! i with
  | Some x => ret x
  | None => raise IndexError
  end.

(** [take(indexer)] *)
Definition take_rows {S A} (xs : list A) (indexer : list nat) : M S (list A) :=
  for_each (row_at xs) indexer.

(** [df.sort_values(by=..., ascending=...)] and [Series.sort_values]: the
    rows, reordered by the positions that sort the key column. *)
Definition sort_values {Algo : ArgSort} {S A} (by_ : A -> Z) (ascending : bool)
    (xs : list A) : M S (list A) :=
  take_rows xs (nargsort (map by_ xs) ascending).

(** Insertion of a (key, position) pair after the entries whose key is
    not larger. *)
Fixpoint insert_after (x : Z * nat) (l : list (Z * nat)) : list (Z * nat) :=
  match l with
  | [] => [x]
  | y :: l' => if x.1 <? y.1 then x :: l else y :: insert_after x l'
  end.

Definition keyed (ks : list Z) : list (Z * nat) := zip ks (seq 0 (length ks)).

(** Insertion sort scanning the array from the left, as NumPy's scalar
    quicksort does on a partition of at most 16 elements. *)
Definition insertion_argsort : ArgSort :=
  fun ks => map snd (foldl (fun acc x => insert_after x acc) [] (keyed ks)).

(** The same insertion, scanning the array from the right. *)
Definition backward_argsort : ArgSort :=
  fun ks => map snd (foldr insert_after [] (keyed ks)).

(** ** Comparison grid *)

Inductive target_status : Type := Good | Warning | Needs_Improvement.

Definition status_emoji (target_met_val good warn : Z) : target_status :=
  if good <=? target_met_val then Good
  else if warn <=? target_met_val then Warning
  else Needs_Improvement.

(** [st.columns(n)]: [n] containers, numbered from 0; a count that is not
    positive is refused. *)
Definition st_columns {S} (n : Z) : M S (list nat) :=
  if n <=? 0 then raise StreamlitAPIException
  else ret (seq 0 (Z.to_nat n)).

(** [a % b] *)
Definition py_mod {S} (a b : Z) : M S Z :=
  if b =? 0 then raise ZeroDivisionError else ret (a mod b).

(** [xs[i]] for a Python integer [i]: negative indices count from the end. *)
Definition list_getitem {S A} (xs : list A) (i : Z) : M S A :=
  let n := Z.of_nat (length xs) in
  let j := if i <? 0 then i + n else i in
  if (0 <=? j) && (j <? n) then row_at xs (Z.to_nat j) else raise IndexError.

Record card : Type := Card {
  card_column : nat;
  card_product : product;
  card_status : target_status
}.

(** The body of the loop over [enumerate(sorted_products_df.iterrows())]. *)
Definition place_card {S} (ui : widgets) (comp_cols : list nat)
    (i : nat) (prod_data : product) : M S card :=
  col_idx <- py_mod (Z.of_nat i) (num_comparison_cols ui) ;;
  col <- list_getitem comp_cols col_idx ;;
  ret {| card_column := col; card_product := prod_data;
         card_status := status_emoji (Target_Met_pct prod_data)
                          (target_good_threshold ui)
                          (target_warning_threshold ui) |}.

Definition comparison_grid {S} (ui : widgets) (sorted_products_df : DataFrame)
    : M S (list card) :=
  comp_cols <- st_columns (num_comparison_cols ui) ;;
  for_each (fun '(i, prod_data) => place_card ui comp_cols i prod_data)
           (enumerate sorted_products_df).

(** ** Category performance *)

Fixpoint insert_key (c : string) (l : list string) : list string :=
  match l with
  | [] => [c]
  | d :: l' => if String.leb c d then c :: l else d :: insert_key c l'
  end.

(** The group keys of [groupby("Category")]: the distinct categories in
    lexicographic order. *)
Definition group_keys (df : DataFrame) : list string :=
  foldr insert_key [] (remove_dups (map Category df)).

(** [df.groupby("Category")["YTD Revenue"].sum()] *)
Definition groupby_sum (df : DataFrame) : list (string * Z) :=
  map (fun c => (c, series_sum (map YTD_Revenue
                      (filter (fun r => Category r = c) df))))
      (group_keys df).

Definition category_performance {Algo : ArgSort} {S} (df : DataFrame)
    : M S (list (string * Z)) :=
  sort_values snd true (groupby_sum df).

(** ** One run of the script *)

Record page : Type := Page {
  df_products : DataFrame;
  kpi_total_revenue : Z;
  kpi_total_units : Z;
  kpi_avg_rating : pyfloat;
  cards : list card;
  category_chart : list (string * Z)
}.

(** Everything the script does after it has [df_products]. *)
Definition render_page {Algo : ArgSort} {S} (ui : widgets) (df : DataFrame)
    : M S page :=
  sorted_products_df <-
    sort_values (sort_column (selected_sort_by ui)) (sort_ascending ui) df ;;
  grid <- comparison_grid ui sorted_products_df ;;
  perf <- category_performance df ;;
  ret {| df_products := df;
         kpi_total_revenue := total_revenue df;
         kpi_total_units := total_units df;
         kpi_avg_rating := avg_rating df;
         cards := grid;
         category_chart := perf |}.

Definition run_script {Algo : ArgSort} (ui : widgets) : M process page :=
  df <- st_cache_data generate_initial_data ;;
  render_page ui df.

(** The process state a run leaves behind, whether it rendered or raised. *)
Definition state_after {S A} (r : result S A) : S :=
  match r with
  | Return _ s => s
  | Raise _ s => s
  end.

(** A session: one run of the script per interaction. *)
Definition rerun {Algo : ArgSort} (p : process) (ui : widgets) : process :=
  state_after (run_script ui p).

Definition session {Algo : ArgSort} (uis : list widgets) (p : process) : process :=
  foldl rerun p uis.

(** * Specification vocabulary *)

(** [lo <= x < hi] *)
Definition in_range (lo hi : Z) (x : Z) : Prop := lo <= x < hi.

(** * What a generated row is made of *)

(** A row is determined by its draws: the two walks, the channel
    percentages, and the three scalar attributes. *)
Inductive row_from (i : nat) (name : string) : product -> Prop :=
  | RowFrom (rev_d units_d : Z * list Z) (dist : list Q)
            (cat : string) (u : Q) (stock : string) (target : Z) :
      in_range 300 1500 rev_d.1 ->
      length rev_d.2 = num_months ->
      Forall (in_range (-100) 150) rev_d.2 ->
      in_range 10 80 units_d.1 ->
      length units_d.2 = num_months ->
      Forall (in_range (-10) 20) units_d.2 ->
      length dist = length channels ->
      Forall (fun x => 0 <= x)%Q dist ->
      (Qsum dist == 100)%Q ->
      product_categories_map !! name = Some cat ->
      row_from i name
        {| ID := product_id i; Name := name; Category := cat;
           YTD_Revenue := Zsum (last_k 3 (walk 50 rev_d));
           YTD_Units := Zsum (last_k 3 (walk 5 units_d));
           Revenue_Trend := walk 50 rev_d;
           Units_Trend := walk 5 units_d;
           Rating := round1 u; Stock := stock;
           Channels_pct := py_dict (zip channels (map round1 dist));
           Target_Met_pct := target |}.


(** Keyed positions compared on their key. *)
Definition key_le (p q : Z * nat) : Prop := p.1 <= q.1.

(** Keyed positions compared on their key, then on their position. *)
Definition key_pos_lt (p q : Z * nat) : Prop :=
  p.1 < q.1 \/ (p.1 = q.1 /\ (p.2 < q.2)%nat).

(** [xs] read through [key] is in the requested direction. *)
Definition ordered_by {A} (key : A -> Z) (ascending : bool) (xs : list A) : Prop :=
  StronglySorted (if ascending then Z.le else Z.ge) (map key xs).


(** The revenue of one category, summed row by row over the whole table. *)
Definition category_total (df : DataFrame) (c : string) : Z :=
  Zsum (map (fun r => if decide (Category r = c) then YTD_Revenue r else 0) df).

(** The values of a dict. *)
Definition dict_values (d : gmap string Z) : list Z := map snd (map_to_list d).

(** A fixed entropy tape, for running the model on a concrete input. *)
Definition sample_world : world :=
  World (BitGen (fun n => (N.of_nat n * 2654435761 + 12345) mod 2 ^ 32)%N 0)
        (BitGen (fun n => (N.of_nat n * 6364136223846793005
                           + 1442695040888963407) mod 2 ^ 53)%N 0).

Definition sample_widgets : widgets :=
  {| selected_sort_by := By_YTD_Revenue; sort_ascending := false;
     num_comparison_cols := 3; target_good_threshold := 100;
     target_warning_threshold := 80 |}.

(** A computation that leaves the state as it found it, whether it
    returns or raises. *)
Definition leaves_state {S A} (m : M S A) : Prop :=
  forall s, state_after (m s) = s.

(** * The rest of the page *)

(** ** Product deep dive *)

(** [df_products[df_products["Name"] == selected_name].iloc[0]]: the first
    row with that name; [iloc[0]] on an empty selection raises. *)
Definition select_product {S} (df : DataFrame) (selected_name : string) : M S product :=
  match filter (fun r => Name r = selected_name) df with
  | [] => raise IndexError
  | r :: _ => ret r
  end.

Definition stock_colors : gmap string string :=
  py_dict [("In Stock", "green"); ("Low", "orange"); ("Out", "red")]%string.

(** [{...}.get(stock_level, "grey")] *)
Definition stock_color (stock_level : string) : string :=
  default "grey"%string (stock_colors !! stock_level).

(** The two branches of [if product['Channels %']:]: an empty dict is
    falsy. *)
Inductive channel_section : Type :=
  | Donut (shares : gmap string Z)
  | No_channel_data.

Definition channel_share_section (shares : gmap string Z) : channel_section :=
  if decide (shares = ∅) then No_channel_data else Donut shares.

(** [f"{m:02d}"] *)
Definition pad2 (m : nat) : string :=
  let s := NilZero.string_of_uint (Nat.to_uint m) in
  if (String.length s <? 2)%nat then "0" +:+ s else s.

(** [[f"2023-{m:02d}-01" for m in range(1,13)]] *)
Definition month_labels : list string :=
  map (fun m => "2023-" +:+ pad2 m +:+ "-01") (seq 1 12).

(** [pd.DataFrame({...})] from three columns: the columns must have the
    same length. *)
Definition pd_DataFrame_columns {S A B C} (c1 : list A) (c2 : list B) (c3 : list C)
    : M S (list (A * B * C)) :=
  if (length c1 =? length c2)%nat && (length c2 =? length c3)%nat
  then ret (zip (zip c1 c2) c3)
  else raise (ValueError "All arrays must be of the same length").

(** The frame behind the monthly chart: month, revenue, units.  The month
    labels are kept as the strings that [pd.to_datetime] is given. *)
Definition trend_df {S} (product : product) : M S (list (string * Z * Z)) :=
  pd_DataFrame_columns month_labels (Revenue_Trend product) (Units_Trend product).

Record deep_dive_view : Type := DeepDive {
  dd_product : product;
  dd_stock_color : string;
  dd_channels : channel_section;
  dd_trend : list (string * Z * Z)
}.

Definition deep_dive {S} (df : DataFrame) (selected_name : string)
    : M S deep_dive_view :=
  product <- select_product df selected_name ;;
  trend <- trend_df product ;;
  ret {| dd_product := product;
         dd_stock_color := stock_color (Stock product);
         dd_channels := channel_share_section (Channels_pct product);
         dd_trend := trend |}.

(** ** Card details *)

(** [min(target_met_val, 100) / 100] *)
Definition progress_value (target_met_val : Z) : Q :=
  inject_Z (Z.min target_met_val 100) / 100.

(** [st.progress(value)] for a float: outside of 0.0 to 1.0 it is refused. *)
Definition st_progress {S} (value : Q) : M S unit :=
  if Qle_bool 0 value && Qle_bool value 1 then ret tt
  else raise StreamlitAPIException.

Definition card_progress {S} (prod_data : product) : M S unit :=
  st_progress (progress_value (Target_Met_pct prod_data)).

(** ** Category chart *)

(** [max(200, len(category_performance) * 40 + 50)] *)
Definition chart_height (n : nat) : Z := Z.max 200 (Z.of_nat n * 40 + 50).

(** The two branches of [if not category_performance.empty:]. *)
Inductive category_section : Type :=
  | Bar_chart (data : list (string * Z)) (height : Z)
  | No_category_data.

Definition category_chart_section (perf : list (string * Z)) : category_section :=
  match perf with
  | [] => No_category_data
  | _ => Bar_chart perf (chart_height (length perf))
  end.

(** * More specification vocabulary *)

(** The scalar attributes of a row are in the ranges they are drawn from. *)
Definition attrs_in_range (r : product) : Prop :=
  35 <= Rating r <= 49
  /\ In (Stock r) ["In Stock"; "Low"; "Out"]%string
  /\ 60 <= Target_Met_pct r <= 125.

(** An entropy tape that repeats one word. *)
Definition constant_world (np py : N) : world :=
  World (BitGen (fun _ => np) 0) (BitGen (fun _ => py) 0).

(** The order of the three statuses, worst first. *)
Definition status_rank (s : target_status) : Z :=
  match s with
  | Needs_Improvement => 0
  | Warning => 1
  | Good => 2
  end.

(** The table generated from the sample entropy. *)
Definition sample_df : DataFrame :=
  match generate_initial_data sample_world with
  | Return df _ => df
  | Raise _ _ => []
  end.

(** How many cards of a grid sit in column [c]. *)
Definition cards_in_column (c : nat) (grid : list card) : nat :=
  length (filter (fun k => card_column k = c) grid).
(** * Reasoning principles for the monad *)

Section MonadRules.
Context {S : Type}.

Lemma always_returns_ret {A} (a : A) (P : A -> Prop) :
  P a -> always_returns (S := S) (ret a) P.
Proof. intros Ha s. exists a, s. split; [reflexivity | exact Ha]. Qed.

Lemma always_returns_bind {A B} (m : M S A) (k : A -> M S B)
      (P : A -> Prop) (Q : B -> Prop) :
  always_returns m P ->
  (forall a, P a -> always_returns (k a) Q) ->
  always_returns (x <- m ;; k x) Q.
Proof.
  intros Hm Hk s. destruct (Hm s) as (a & s1 & Em & Pa).
  destruct (Hk a Pa s1) as (b & s2 & Ek & Qb).
  exists b, s2. unfold bind. rewrite Em. split; assumption.
Qed.

Lemma always_returns_weaken {A} (m : M S A) (P Q : A -> Prop) :
  always_returns m P -> (forall a, P a -> Q a) -> always_returns m Q.
Proof.
  intros Hm HPQ s. destruct (Hm s) as (a & s1 & Em & Pa).
  exists a, s1. split; [exact Em | apply HPQ, Pa].
Qed.

Lemma always_returns_repeat_draw {A} (m : M S A) (P : A -> Prop) n :
  always_returns m P ->
  always_returns (repeat_draw m n) (fun ys => length ys = n /\ Forall P ys).
Proof.
  intros Hm. induction n as [|n IH]; simpl.
  - apply always_returns_ret. split; [reflexivity | constructor].
  - eapply always_returns_bind; [exact Hm |]. intros y Py.
    eapply always_returns_bind; [exact IH |]. intros ys [Hlen Hall].
    apply always_returns_ret. split; [simpl; congruence | constructor; assumption].
Qed.

Lemma always_returns_for_each {A B} (body : A -> M S B)
      (P : A -> B -> Prop) (xs : list A) :
  (forall x, In x xs -> always_returns (body x) (P x)) ->
  always_returns (for_each body xs) (fun ys => Forall2 P xs ys).
Proof.
  induction xs as [|x xs IH]; intros Hbody; simpl.
  - apply always_returns_ret. constructor.
  - eapply always_returns_bind; [apply Hbody; left; reflexivity |].
    intros y Py.
    eapply always_returns_bind; [apply IH; intros; apply Hbody; right; assumption |].
    intros ys Hys. apply always_returns_ret. constructor; assumption.
Qed.
End MonadRules.

(** * Facts about the random primitives *)

Lemma np_random_randint_range low high :
  low < high -> always_returns (np_random_randint low high) (in_range low high).
Proof.
  intros Hlt w. unfold np_random_randint.
  destruct (Z.leb_spec high low) as [Hle|_]; [lia |].
  eexists _, _. split; [reflexivity |].
  unfold in_range.
  pose proof (Z.mod_pos_bound (Z.of_N (raw (np_random w) (cursor (np_random w))))
                (high - low)) as Hb.
  simpl. lia.
Qed.

Lemma np_random_randint_size_range low high n :
  low < high ->
  always_returns (np_random_randint_size low high n)
    (fun xs => length xs = n /\ Forall (in_range low high) xs).
Proof.
  intros Hlt. unfold np_random_randint_size.
  destruct (Z.leb_spec high low) as [Hle|_]; [lia |].
  apply always_returns_repeat_draw, np_random_randint_range, Hlt.
Qed.

Lemma walk_draws_range a b c d :
  a < b -> c < d ->
  always_returns (walk_draws a b c d)
    (fun dr => in_range a b dr.1 /\ length dr.2 = num_months
               /\ Forall (in_range c d) dr.2).
Proof.
  intros Hab Hcd. unfold walk_draws.
  eapply always_returns_bind; [apply np_random_randint_range, Hab |].
  intros start Hstart.
  eapply always_returns_bind; [apply np_random_randint_size_range, Hcd |].
  intros steps [Hlen Hsteps].
  apply always_returns_ret. simpl. auto.
Qed.

Lemma np_standard_gamma_pos :
  always_returns np_standard_gamma (fun g => 0 < g)%Q.
Proof.
  intros w. eexists _, _. split; [reflexivity |].
  unfold Qlt. simpl. lia.
Qed.

Lemma random_uniform_returns a b : always_returns (random_uniform a b) (fun _ => True).
Proof. intros w. eexists _, _. split; [reflexivity | exact I]. Qed.

Lemma random_choice_returns {A} (seq : list A) :
  seq <> [] -> always_returns (random_choice seq) (fun x => In x seq).
Proof.
  intros Hne w. destruct seq as [|x seq']; [congruence |].
  eexists _, _. split; [reflexivity |].
  apply nth_In.
  pose proof (Z.mod_pos_bound (Z.of_N (raw (py_random w) (cursor (py_random w))))
                (Z.of_nat (length (x :: seq')))) as Hb.
  simpl length in *. lia.
Qed.

Lemma random_randint_range a b :
  a <= b -> always_returns (random_randint a b) (fun x => a <= x <= b).
Proof.
  intros Hab w. unfold random_randint.
  destruct (Z.ltb_spec b a) as [Hlt|_]; [lia |].
  eexists _, _. split; [reflexivity |].
  pose proof (Z.mod_pos_bound (Z.of_N (raw (py_random w) (cursor (py_random w))))
                (b - a + 1)) as Hb.
  simpl. lia.
Qed.

(** * Facts about the array functions *)

Example np_cumsum_runs : np_cumsum [5; -2; 7] = [5; 3; 10].
Proof. reflexivity. Qed.

Example np_clip_from_below : np_clip [40; 50; 2000] (Some 50) None = [50; 50; 2000].
Proof. reflexivity. Qed.

Example last_k_of_long_and_short :
  last_k 3 [1; 2; 3; 4; 5] = [3; 4; 5] /\ last_k 3 [1; 2] = [1; 2].
Proof. split; reflexivity. Qed.

Example walk_from_draws : walk 50 (60, [10; -30; 5]) = [70; 50; 50].
Proof. reflexivity. Qed.

Lemma length_cumsum_from acc xs : length (cumsum_from acc xs) = length xs.
Proof. revert acc. induction xs as [|x xs IH]; intros acc; simpl; [|rewrite IH]; reflexivity. Qed.

Lemma length_walk floor dr : length (walk floor dr) = length dr.2.
Proof.
  unfold walk, np_clip, np_cumsum.
  rewrite !length_map. apply length_cumsum_from.
Qed.



Lemma last_k_3_split {A} (xs : list A) :
  (3 <= length xs)%nat ->
  exists pre a b c, xs = pre ++ [a; b; c] /\ last_k 3 xs = [a; b; c]
                    /\ length pre = (length xs - 3)%nat.
Proof.
  intros Hlen. unfold last_k.
  pose proof (take_drop (length xs - 3) xs) as Hsplit.
  pose proof (length_drop xs (length xs - 3)) as Hd.
  destruct (drop (length xs - 3) xs) as [|a [|b [|c [|e tl]]]] eqn:E;
    simpl in Hd; try lia.
  exists (take (length xs - 3) xs), a, b, c.
  split; [symmetry; exact Hsplit |]. split; [reflexivity |].
  rewrite length_take. lia.
Qed.

(** * Facts about rounding and the channel split *)

Example round1_nearest : round1 (426 # 100) = 43 /\ round1 (424 # 100) = 42.
Proof. split; reflexivity. Qed.

Example round1_half_to_even : round1 (425 # 100) = 42 /\ round1 (435 # 100) = 44.
Proof. split; reflexivity. Qed.

Lemma round_half_even_close x :
  (inject_Z (round_half_even x) - x <= 1 # 2 /\
   x - inject_Z (round_half_even x) <= 1 # 2)%Q.
Proof.
  unfold round_half_even.
  pose proof (Qfloor_le x) as Hlo. pose proof (Qlt_floor x) as Hhi.
  rewrite inject_Z_plus in Hhi. change (inject_Z 1) with 1%Q in Hhi.
  destruct (x - inject_Z (Qfloor x) ?= 1 # 2)%Q eqn:E;
    [apply Qeq_alt in E; destruct (Z.even (Qfloor x))
    | apply Qlt_alt in E | apply Qgt_alt in E];
    rewrite ?inject_Z_plus; change (inject_Z 1) with 1%Q; lra.
Qed.

Lemma round_half_even_nonneg x : (0 <= x)%Q -> 0 <= round_half_even x.
Proof.
  intros Hx. unfold round_half_even.
  assert (0 <= Qfloor x) as Hf.
  { change 0 with (Qfloor 0). apply Qfloor_resp_le, Hx. }
  destruct (x - inject_Z (Qfloor x) ?= 1 # 2)%Q; [destruct (Z.even _) | |]; lia.
Qed.

Lemma round1_nonneg x : (0 <= x)%Q -> 0 <= round1 x.
Proof. intros Hx. apply round_half_even_nonneg. lra. Qed.

(** [round1 x] is a nearest number of tenths to [x]. *)
Lemma round1_close x :
  (inject_Z (round1 x) / 10 - x <= 1 # 20 /\ x - inject_Z (round1 x) / 10 <= 1 # 20)%Q.
Proof.
  unfold round1. destruct (round_half_even_close (x * 10)) as [H1 H2].
  assert (inject_Z (round_half_even (x * 10)) / 10
          == inject_Z (round_half_even (x * 10)) * (1 # 10))%Q as -> by field.
  split; lra.
Qed.

Lemma Qsum_scale c xs : (Qsum (map (fun v => v * c) xs) == Qsum xs * c)%Q.
Proof.
  induction xs as [|x xs IH]; simpl; [lra |].
  unfold Qsum in *. simpl. rewrite IH. lra.
Qed.

Lemma Qsum_pos xs : xs <> [] -> Forall (fun g => 0 < g)%Q xs -> (0 < Qsum xs)%Q.
Proof.
  intros Hne Hall. destruct Hall as [|x xs Hx Hxs]; [congruence |].
  clear Hne. unfold Qsum. simpl.
  assert (0 <= foldr Qplus 0 xs)%Q as Hrest.
  { clear Hx. induction Hxs as [|y ys Hy _ IH]; simpl; lra. }
  lra.
Qed.

Lemma np_random_dirichlet_ones_simplex k :
  (0 < k)%nat ->
  always_returns (np_random_dirichlet_ones k)
    (fun p => length p = k /\ Forall (fun x => 0 <= x)%Q p /\ (Qsum p == 1)%Q).
Proof.
  intros Hk. unfold np_random_dirichlet_ones.
  eapply always_returns_bind;
    [apply always_returns_repeat_draw, np_standard_gamma_pos |].
  intros val [Hlen Hpos]. apply always_returns_ret.
  assert (0 < Qsum val)%Q as Hacc.
  { apply Qsum_pos; [|exact Hpos]. intros ->. simpl in Hlen. lia. }
  split; [rewrite length_map; exact Hlen |]. split.
  - apply List.Forall_forall. intros y Hy. apply in_map_iff in Hy as (g & <- & Hg).
    rewrite List.Forall_forall in Hpos. specialize (Hpos g Hg).
    apply Qmult_le_0_compat; [lra |]. apply Qlt_le_weak, Qinv_lt_0_compat, Hacc.
  - rewrite Qsum_scale. apply Qmult_inv_r. lra.
Qed.

Lemma chan_dist_percent :
  always_returns chan_dist
    (fun d => length d = length channels /\ Forall (fun x => 0 <= x)%Q d
              /\ (Qsum d == 100)%Q).
Proof.
  unfold chan_dist.
  eapply always_returns_bind;
    [apply np_random_dirichlet_ones_simplex; simpl; lia |].
  intros p (Hlen & Hnn & Hsum). apply always_returns_ret.
  split; [rewrite length_map; exact Hlen |]. split.
  - apply List.Forall_forall. intros y Hy. apply in_map_iff in Hy as (x & <- & Hx).
    rewrite List.Forall_forall in Hnn. specialize (Hnn x Hx). lra.
  - rewrite Qsum_scale, Hsum. lra.
Qed.

(** * The rows of the generated table *)

Lemma clipped_walk_spec a b c d floor :
  a < b -> c < d ->
  always_returns (clipped_walk a b c d floor)
    (fun t => exists dr, in_range a b dr.1 /\ length dr.2 = num_months
                         /\ Forall (in_range c d) dr.2 /\ t = walk floor dr).
Proof.
  intros Hab Hcd. unfold clipped_walk.
  eapply always_returns_bind; [apply walk_draws_range; assumption |].
  intros dr (H1 & H2 & H3). apply always_returns_ret. exists dr. auto.
Qed.

Lemma product_row_spec i name :
  is_Some (product_categories_map !! name) ->
  always_returns (product_row i name) (row_from i name).
Proof.
  intros [cat Hcat]. unfold product_row, rev_trend, units_trend.
  eapply always_returns_bind; [apply clipped_walk_spec; lia |].
  intros rev (rev_d & R1 & R2 & R3 & ->).
  eapply always_returns_bind; [apply clipped_walk_spec; lia |].
  intros units (units_d & U1 & U2 & U3 & ->).
  eapply always_returns_bind; [apply chan_dist_percent |].
  intros dist (D1 & D2 & D3).
  eapply always_returns_bind with (P := fun c => c = cat).
  { unfold dict_getitem. rewrite Hcat. apply always_returns_ret. reflexivity. }
  intros ? ->.
  eapply always_returns_bind; [apply random_uniform_returns |]. intros u _.
  eapply always_returns_bind; [apply random_choice_returns; discriminate |].
  intros stock _.
  eapply always_returns_bind; [apply (random_randint_range 60 125); lia |].
  intros target _.
  apply always_returns_ret. constructor; assumption.
Qed.

Lemma product_names_have_category i name :
  In (i, name) (enumerate product_names) ->
  is_Some (product_categories_map !! name).
Proof.
  unfold enumerate, product_names. simpl.
  intros H. repeat (destruct H as [[= <- <-] | H]; [eexists; vm_compute; reflexivity |]).
  destruct H.
Qed.

(** The table always comes out, one row per product name, in order. *)
Lemma generate_initial_data_rows :
  always_returns generate_initial_data
    (fun df => Forall2 (fun x r => row_from x.1 x.2 r) (enumerate product_names) df).
Proof.
  unfold generate_initial_data.
  eapply always_returns_bind.
  - apply always_returns_for_each
      with (P := fun (x : nat * string) r => row_from x.1 x.2 r).
    intros [i name] Hin. apply product_row_spec.
    eapply product_names_have_category, Hin.
  - intros rows Hrows. unfold set_index_ID.
    destruct rows as [|r rows]; [inversion Hrows |].
    apply always_returns_ret, Hrows.
Qed.

Lemma generate_initial_data_each (P : product -> Prop) :
  (forall i name r, row_from i name r -> P r) ->
  always_returns generate_initial_data (Forall P).
Proof.
  intros HP. eapply always_returns_weaken; [apply generate_initial_data_rows |].
  intros df Hrows. simpl in Hrows.
  induction Hrows as [|[i name] r xs rs Hr _ IH]; constructor; eauto.
Qed.

(** * The generated table *)

(** The table generated from the sample entropy: identifiers, revenue and
    units of the last quarter, ratings in tenths. *)
Example sample_table :
  match generate_initial_data sample_world with
  | Return df _ => map (fun r => (ID r, YTD_Revenue r, YTD_Units r, Rating r)) df
  | Raise _ _ => []
  end
  = [("P201", 2833, 303, 37); ("P202", 4835, 265, 47); ("P203", 1933, 183, 43);
     ("P204", 4777, 507, 38); ("P205", 5383, 303, 48); ("P206", 3877, 207, 43);
     ("P207", 3779, 49, 39)]%string.
Proof. vm_compute. reflexivity. Qed.

Example no_rows_no_index : set_index_ID [] tt = Raise (KeyError "ID") tt.
Proof. reflexivity. Qed.

(** C1.  In every row of the table, [YTD Revenue] is the sum of the last
    three of the twelve months of [Revenue Trend], and [YTD Units] the sum
    of the last three months of [Units Trend]. *)
Theorem ytd_is_sum_of_last_three_months :
  always_returns generate_initial_data
    (Forall (fun r =>
       (exists pre a b c,
           Revenue_Trend r = pre ++ [a; b; c] /\ length pre = 9%nat
           /\ YTD_Revenue r = a + b + c) /\
       (exists pre a b c,
           Units_Trend r = pre ++ [a; b; c] /\ length pre = 9%nat
           /\ YTD_Units r = a + b + c))).
Proof.
  apply generate_initial_data_each.
  intros i name r Hr. destruct Hr as [rev_d units_d dist cat u stock target
    _ Rlen _ _ Ulen _ _ _ _ _]. simpl.
  split.
  - destruct (last_k_3_split (walk 50 rev_d)) as (pre & a & b & c & E1 & E2 & E3).
    { rewrite length_walk, Rlen. unfold num_months. lia. }
    exists pre, a, b, c. rewrite E2. split; [exact E1 |]. split.
    + rewrite E3, length_walk, Rlen. reflexivity.
    + unfold Zsum. simpl. lia.
  - destruct (last_k_3_split (walk 5 units_d)) as (pre & a & b & c & E1 & E2 & E3).
    { rewrite length_walk, Ulen. unfold num_months. lia. }
    exists pre, a, b, c. rewrite E2. split; [exact E1 |]. split.
    + rewrite E3, length_walk, Ulen. reflexivity.
    + unfold Zsum. simpl. lia.
Qed.


(** * The random draws *)

Lemma np_random_randint_run low high g py :
  low < high ->
  np_random_randint low high (World g py)
  = Return (low + Z.of_N (raw g (cursor g)) mod (high - low))
           (World (BitGen (raw g) (S (cursor g))) py).
Proof.
  intros Hlt. unfold np_random_randint.
  destruct (Z.leb_spec high low); [lia | reflexivity].
Qed.

(** A tape that spells out the wanted values makes the generator draw them. *)
Lemma repeat_draw_randint_hits low high (vs : list Z) :
  low < high ->
  Forall (in_range low high) vs ->
  forall g py,
    (forall k v, vs !! k = Some v -> raw g (cursor g + k) = Z.to_N (v - low)) ->
    repeat_draw (np_random_randint low high) (length vs) (World g py)
    = Return vs (World (BitGen (raw g) (cursor g + length vs)) py).
Proof.
  intros Hlt Hvs. induction Hvs as [|v vs Hv _ IH]; intros g py Htape; simpl.
  - rewrite Nat.add_0_r. destruct g. reflexivity.
  - unfold bind at 1. rewrite np_random_randint_run by exact Hlt.
    pose proof (Htape 0%nat v eq_refl) as H0. rewrite Nat.add_0_r in H0.
    unfold in_range in Hv.
    rewrite H0, Z2N.id, Z.mod_small by lia.
    unfold bind.
    rewrite (IH (BitGen (raw g) (S (cursor g))) py).
    + simpl. unfold ret. do 2 f_equal; [lia | f_equal; f_equal; lia].
    + intros k x Hk. simpl. rewrite <- (Htape (S k) x Hk). f_equal. lia.
Qed.

Lemma walk_draws_complete a b c d (start : Z) (steps : list Z) :
  a < b -> c < d ->
  in_range a b start -> length steps = num_months ->
  Forall (in_range c d) steps ->
  exists w w', walk_draws a b c d w = Return (start, steps) w'.
Proof.
  intros Hab Hcd Hstart Hlen Hsteps.
  set (tape := fun n => nth n (Z.to_N (start - a) :: map (fun v => Z.to_N (v - c)) steps) 0%N).
  exists (World (BitGen tape 0) (BitGen tape 0)). eexists.
  unfold walk_draws, bind. rewrite np_random_randint_run by exact Hab.
  unfold in_range in Hstart. simpl raw. simpl cursor.
  change (tape 0%nat) with (Z.to_N (start - a)).
  rewrite Z2N.id, Z.mod_small by lia.
  unfold np_random_randint_size.
  destruct (Z.leb_spec d c); [lia |].
  rewrite <- Hlen, repeat_draw_randint_hits; try assumption.
  - unfold ret. f_equal. f_equal. lia.
  - intros k v Hk. simpl. unfold tape. simpl.
    erewrite nth_indep, map_nth.
    + f_equal. f_equal. apply nth_lookup_Some with (d := 0) in Hk. exact Hk.
    + rewrite length_map. eapply lookup_lt_Some, Hk.
Qed.

(** C6, as stated, fails: the upper endpoints are never drawn.  No entropy
    makes a revenue trend start at 1500 or take a step of 150, nor a units
    trend start at 80 or take a step of 20. *)
Lemma upper_endpoints_are_never_drawn :
  ~ (exists w dr w',
        walk_draws 300 1500 (-100) 150 w = Return dr w'
        /\ (dr.1 = 1500 \/ In 150 dr.2))
  /\ ~ (exists w dr w',
        walk_draws 10 80 (-10) 20 w = Return dr w'
        /\ (dr.1 = 80 \/ In 20 dr.2)).
Proof.
  split; intros (w & dr & w' & E & Hend).
  - destruct (walk_draws_range 300 1500 (-100) 150 ltac:(lia) ltac:(lia) w)
      as (dr' & w'' & E' & Hstart & _ & Hsteps).
    rewrite E in E'. injection E' as <- _. unfold in_range in *.
    destruct Hend as [H | H]; [lia |].
    rewrite List.Forall_forall in Hsteps. specialize (Hsteps _ H). lia.
  - destruct (walk_draws_range 10 80 (-10) 20 ltac:(lia) ltac:(lia) w)
      as (dr' & w'' & E' & Hstart & _ & Hsteps).
    rewrite E in E'. injection E' as <- _. unfold in_range in *.
    destruct Hend as [H | H]; [lia |].
    rewrite List.Forall_forall in Hsteps. specialize (Hsteps _ H). lia.
Qed.

(** C6, amended.  A revenue trend is built from a start drawn from
    300 <= x < 1500 and twelve steps drawn from -100 <= x < 150; a units
    trend from a start in 10 <= x < 80 and twelve steps in -10 <= x < 20.
    The draws always fall in these half-open ranges, and every start and
    every twelve steps in them are drawn on some entropy. *)
Theorem trend_draws_cover_half_open_ranges :
  (rev_trend = (draws <- walk_draws 300 1500 (-100) 150 ;; ret (walk 50 draws))
   /\ always_returns (walk_draws 300 1500 (-100) 150)
        (fun dr => 300 <= dr.1 < 1500 /\ length dr.2 = 12%nat
                   /\ Forall (fun x => -100 <= x < 150) dr.2)
   /\ forall start steps,
        300 <= start < 1500 -> length steps = 12%nat ->
        Forall (fun x => -100 <= x < 150) steps ->
        exists w w', walk_draws 300 1500 (-100) 150 w = Return (start, steps) w')
  /\
  (units_trend = (draws <- walk_draws 10 80 (-10) 20 ;; ret (walk 5 draws))
   /\ always_returns (walk_draws 10 80 (-10) 20)
        (fun dr => 10 <= dr.1 < 80 /\ length dr.2 = 12%nat
                   /\ Forall (fun x => -10 <= x < 20) dr.2)
   /\ forall start steps,
        10 <= start < 80 -> length steps = 12%nat ->
        Forall (fun x => -10 <= x < 20) steps ->
        exists w w', walk_draws 10 80 (-10) 20 w = Return (start, steps) w').
Proof.
  split; (split; [reflexivity |]); split.
  - apply (walk_draws_range 300 1500 (-100) 150); lia.
  - intros start steps H1 H2 H3. apply walk_draws_complete; auto; lia.
  - apply (walk_draws_range 10 80 (-10) 20); lia.
  - intros start steps H1 H2 H3. apply walk_draws_complete; auto; lia.
Qed.

Lemma trend_draws_cover_half_open_ranges_witness :
  exists w w',
    walk_draws 300 1500 (-100) 150 w
    = Return (1499, [149; 149; 149; 149; 149; 149; -100; -100; -100; -100; -100; -100]) w'.
Proof.
  apply (proj2 (proj2 (proj1 trend_draws_cover_half_open_ranges))).
  - lia.
  - reflexivity.
  - repeat constructor; lia.
Defined.

(** * The channel split *)

Lemma Zsum_Permutation xs ys : Permutation xs ys -> Zsum xs = Zsum ys.
Proof.
  unfold Zsum. induction 1; simpl; lia.
Qed.

Lemma py_dict_four {V} (k1 k2 k3 k4 : string) (v1 v2 v3 v4 : V) :
  py_dict [(k1, v1); (k2, v2); (k3, v3); (k4, v4)]
  = <[k4 := v4]> (<[k3 := v3]> (<[k2 := v2]> (<[k1 := v1]> ∅))).
Proof. reflexivity. Qed.

Lemma channel_dict (a b c d : Z) :
  py_dict (zip channels [a; b; c; d])
  = <["Affiliate" := d]> (<["Email" := c]> (<["Paid Social" := b]>
      (<["Organic" := a]> (∅ : gmap string Z)))).
Proof. reflexivity. Qed.

Lemma channel_dict_values (a b c d : Z) :
  Zsum (dict_values (py_dict (zip channels [a; b; c; d]))) = a + b + c + d.
Proof.
  rewrite channel_dict. unfold dict_values.
  erewrite Zsum_Permutation.
  2:{ apply Permutation_map.
      rewrite map_to_list_insert by (by simplify_map_eq).
      rewrite map_to_list_insert by (by simplify_map_eq).
      rewrite map_to_list_insert by (by simplify_map_eq).
      rewrite map_to_list_insert by (by simplify_map_eq).
      rewrite map_to_list_empty. reflexivity. }
  unfold Zsum. simpl. lia.
Qed.

Lemma rounded_split_total (a b c d : Q) :
  (a + (b + (c + (d + 0))) == 100)%Q ->
  998 <= round1 a + round1 b + round1 c + round1 d <= 1002.
Proof.
  intros Hsum. unfold round1.
  destruct (round_half_even_close (a * 10)) as [A1 A2].
  destruct (round_half_even_close (b * 10)) as [B1 B2].
  destruct (round_half_even_close (c * 10)) as [C1 C2].
  destruct (round_half_even_close (d * 10)) as [D1 D2].
  split; rewrite Zle_Qle, !inject_Z_plus.
  - change (inject_Z 998) with 998%Q. lra.
  - change (inject_Z 1002) with 1002%Q. lra.
Qed.

Lemma round1_entry (m : gmap string Z) (ch : string) (x : Q) :
  m !! ch = Some (round1 x) ->
  exists v, m !! ch = Some v /\ (Qabs (inject_Z v / 10 - x) <= 1 # 20)%Q.
Proof.
  intros Hm. exists (round1 x). split; [exact Hm |].
  apply Qabs_Qle_condition. destruct (round1_close x) as [H1 H2]. split; lra.
Qed.

(** C7.  In every row, the keys of [Channels %] are exactly Organic, Paid
    Social, Email and Affiliate; every value is non-negative; the values
    are percentages that sum to 100, each rounded to the nearest tenth;
    and the rounded values sum to within 1.0 of 100 (values are numbers
    of tenths, so within 10 of 1000). *)
Theorem channel_shares_are_a_rounded_split :
  always_returns generate_initial_data
    (Forall (fun r =>
       dom (Channels_pct r)
       = ({["Organic"; "Paid Social"; "Email"; "Affiliate"]} : gset string)
       /\ map_Forall (fun _ v => 0 <= v) (Channels_pct r)
       /\ (exists dist,
             (Qsum dist == 100)%Q
             /\ Forall2 (fun ch x =>
                  exists v, Channels_pct r !! ch = Some v
                            /\ (Qabs (inject_Z v / 10 - x) <= 1 # 20)%Q)
                  channels dist)
       /\ -10 < Zsum (dict_values (Channels_pct r)) - 1000 < 10)).
Proof.
  apply generate_initial_data_each.
  intros i name r Hr. destruct Hr as [rev_d units_d dist cat u stock target
    _ _ _ _ _ _ Dlen Dnn Dsum _]. cbn [Channels_pct].
  destruct dist as [|a [|b [|c [|d [|e dist]]]]]; try discriminate Dlen.
  change (map round1 [a; b; c; d]) with [round1 a; round1 b; round1 c; round1 d].
  inversion Dnn as [|? ? Ha Dnn1]; subst.
  inversion Dnn1 as [|? ? Hb Dnn2]; subst.
  inversion Dnn2 as [|? ? Hc Dnn3]; subst.
  inversion Dnn3 as [|? ? Hd _]; subst.
  split; [| split; [| split]].
  - rewrite channel_dict, !dom_insert_L, dom_empty_L. set_solver.
  - rewrite channel_dict.
    repeat (apply map_Forall_insert_2; [apply round1_nonneg; assumption |]).
    apply map_Forall_empty.
  - exists [a; b; c; d]. split; [exact Dsum |].
    rewrite channel_dict. unfold channels.
    repeat (constructor; [apply round1_entry; by simplify_map_eq |]).
    constructor.
  - rewrite channel_dict_values.
    pose proof (rounded_split_total a b c d Dsum). lia.
Qed.

(** * Overall KPIs *)


(** * The comparison grid *)

(** C4.  With [warn <= good], the status is Good exactly when the target
    percentage reaches [good], Warning exactly when it reaches [warn] but
    not [good], and Needs Improvement exactly when it is below [warn]; at
    thresholds 100 and 80, the values 100, 85 and 50 are Good, Warning and
    Needs Improvement. *)
Theorem status_emoji_three_way (target_met_val good warn : Z) :
  warn <= good ->
  (status_emoji target_met_val good warn = Good <-> good <= target_met_val)
  /\ (status_emoji target_met_val good warn = Warning
      <-> warn <= target_met_val < good)
  /\ (status_emoji target_met_val good warn = Needs_Improvement
      <-> target_met_val < warn)
  /\ status_emoji 100 100 80 = Good
  /\ status_emoji 85 100 80 = Warning
  /\ status_emoji 50 100 80 = Needs_Improvement.
Proof.
  intros Hwg. unfold status_emoji.
  repeat split; try reflexivity;
    destruct (Z.leb_spec good target_met_val), (Z.leb_spec warn target_met_val);
    intros; try discriminate; try lia; reflexivity.
Qed.

Lemma status_emoji_three_way_witness :
  80 <= 100 /\ status_emoji 85 100 80 = Warning.
Proof.
  split; [lia |].
  apply (proj1 (proj2 (status_emoji_three_way 85 100 80 ltac:(lia)))). lia.
Defined.

Lemma row_at_returns {S A} (xs : list A) (i : nat) (x : A) :
  xs !! i = Some x -> always_returns (S := S) (row_at xs i) (fun y => y = x).
Proof. intros Hx. unfold row_at. rewrite Hx. apply always_returns_ret. reflexivity. Qed.

Lemma lookup_seq_0 (n i : nat) : (i < n)%nat -> seq 0 n !! i = Some i.
Proof. intros Hi. rewrite lookup_seq. split; [reflexivity | exact Hi]. Qed.

Lemma place_card_in_bounds {S} (ui : widgets) (i : nat) (prod_data : product) :
  1 <= num_comparison_cols ui ->
  always_returns (S := S)
    (place_card ui (seq 0 (Z.to_nat (num_comparison_cols ui))) i prod_data)
    (fun c => card_product c = prod_data
              /\ Z.of_nat (card_column c) = Z.of_nat i mod num_comparison_cols ui
              /\ 0 <= Z.of_nat i mod num_comparison_cols ui < num_comparison_cols ui).
Proof.
  intros Hn. set (n := num_comparison_cols ui) in *.
  pose proof (Z.mod_pos_bound (Z.of_nat i) n ltac:(lia)) as Hb.
  unfold place_card. fold n.
  eapply always_returns_bind with (P := fun c => c = Z.of_nat i mod n).
  { unfold py_mod. destruct (Z.eqb_spec n 0); [lia |].
    apply always_returns_ret. reflexivity. }
  intros ? ->.
  eapply always_returns_bind
    with (P := fun col => col = Z.to_nat (Z.of_nat i mod n)).
  { unfold list_getitem. rewrite length_seq, Z2Nat.id by lia.
    destruct (Z.ltb_spec (Z.of_nat i mod n) 0); [lia |].
    destruct (Z.leb_spec 0 (Z.of_nat i mod n)); [|lia].
    destruct (Z.ltb_spec (Z.of_nat i mod n) n); [|lia]. simpl.
    apply row_at_returns, lookup_seq_0. lia. }
  intros ? ->. apply always_returns_ret. simpl.
  split; [reflexivity |]. split; [lia | exact Hb].
Qed.



(** * Sorting *)

Section InsertionSort.
Lemma insert_after_perm x l : Permutation (insert_after x l) (x :: l).
Proof.
  induction l as [|y l IH]; simpl; [reflexivity |].
  destruct (x.1 <? y.1); [reflexivity |].
  rewrite IH. apply perm_swap.
Qed.

Lemma insert_after_sorted x l :
  StronglySorted key_le l -> StronglySorted key_le (insert_after x l).
Proof.
  induction 1 as [|y l Hl IH Hy]; simpl.
  - constructor; constructor.
  - destruct (Z.ltb_spec x.1 y.1) as [Hlt | Hge].
    + constructor; [constructor; assumption |].
      constructor; [unfold key_le; lia |].
      eapply Forall_impl; [exact Hy |]. unfold key_le. intros; simpl in *; lia.
    + constructor; [exact IH |].
      eapply Permutation_Forall; [symmetry; apply insert_after_perm |].
      constructor; [unfold key_le; lia | exact Hy].
Qed.

Lemma foldr_insert_after_perm l : Permutation (foldr insert_after [] l) l.
Proof.
  induction l as [|x l IH]; simpl; [reflexivity |].
  rewrite insert_after_perm, IH. reflexivity.
Qed.

Lemma foldr_insert_after_sorted l : StronglySorted key_le (foldr insert_after [] l).
Proof.
  induction l as [|x l IH]; simpl; [constructor | apply insert_after_sorted, IH].
Qed.

Lemma foldl_insert_after_perm l acc :
  Permutation (foldl (fun a x => insert_after x a) acc l) (l ++ acc).
Proof.
  revert acc. induction l as [|x l IH]; intros acc; simpl; [reflexivity |].
  rewrite IH, insert_after_perm. symmetry. apply Permutation_middle.
Qed.

Lemma foldl_insert_after_sorted l acc :
  StronglySorted key_le acc ->
  StronglySorted key_le (foldl (fun a x => insert_after x a) acc l).
Proof.
  revert acc. induction l as [|x l IH]; intros acc Hacc; simpl; [exact Hacc |].
  apply IH, insert_after_sorted, Hacc.
Qed.

Lemma keyed_from s ks :
  map snd (zip ks (seq s (length ks))) = seq s (length ks)
  /\ Forall (fun p => (s <= p.2)%nat /\ nth (p.2 - s) ks 0 = p.1)
            (zip ks (seq s (length ks))).
Proof.
  revert s. induction ks as [|k ks IH]; intros s; simpl.
  - split; constructor.
  - destruct (IH (S s)) as [IH1 IH2]. split; [f_equal; exact IH1 |].
    constructor; [simpl; split; [lia | rewrite Nat.sub_diag; reflexivity] |].
    eapply Forall_impl; [exact IH2 |]. intros [key i] [Hle Hnth]. simpl in *.
    split; [lia |].
    replace (i - s)%nat with (S (i - S s)) by lia. exact Hnth.
Qed.

(** Any arrangement of the keyed positions that is ordered on the keys
    gives a lawful answer. *)
Lemma keyed_arrangement_laws ks sp :
  Permutation sp (keyed ks) -> StronglySorted key_le sp ->
  Permutation (map snd sp) (seq 0 (length ks))
  /\ StronglySorted Z.le (map (fun i => nth i ks 0) (map snd sp)).
Proof.
  intros Hperm Hsorted. destruct (keyed_from 0 ks) as [Hsnd Hnth]. split.
  - rewrite <- Hsnd. apply Permutation_map, Hperm.
  - assert (Forall (fun p : Z * nat => nth p.2 ks 0 = p.1) sp) as Hsp.
    { eapply Permutation_Forall; [symmetry; exact Hperm |].
      eapply Forall_impl; [exact Hnth |]. intros [key i] [_ H]. simpl in *.
      rewrite Nat.sub_0_r in H. exact H. }
    clear Hperm. induction Hsorted as [|p sp Hs IH Hp]; simpl; [constructor |].
    inversion Hsp as [|? ? Hp1 Hsp1]; subst.
    constructor; [apply IH, Hsp1 |].
    rewrite Hp1. clear IH Hs.
    induction Hp as [|q sp Hq _ IHq]; simpl; [constructor |].
    inversion Hsp1 as [|? ? Hq1 Hsp2]; subst.
    constructor; [rewrite Hq1; exact Hq |].
    apply IHq; [constructor |]; assumption.
Qed.
End InsertionSort.

Lemma insertion_argsort_laws : ArgSortLaws insertion_argsort.
Proof.
  split; intros ks; unfold argsort, insertion_argsort;
    apply keyed_arrangement_laws.
  - rewrite foldl_insert_after_perm, app_nil_r. reflexivity.
  - apply foldl_insert_after_sorted. constructor.
  - rewrite foldl_insert_after_perm, app_nil_r. reflexivity.
  - apply foldl_insert_after_sorted. constructor.
Qed.

Lemma backward_argsort_laws : ArgSortLaws backward_argsort.
Proof.
  split; intros ks; unfold argsort, backward_argsort;
    apply keyed_arrangement_laws;
    auto using foldr_insert_after_perm, foldr_insert_after_sorted.
Qed.

Lemma take_rows_spec {S A} (xs : list A) (indexer : list nat) :
  Forall (fun i => (i < length xs)%nat) indexer ->
  always_returns (S := S) (take_rows xs indexer)
    (Forall2 (fun i x => xs !! i = Some x) indexer).
Proof.
  intros Hidx. unfold take_rows.
  apply always_returns_for_each with (P := fun i x => xs !! i = Some x).
  intros i Hi. rewrite List.Forall_forall in Hidx. specialize (Hidx i Hi).
  destruct (lookup_lt_is_Some_2 xs i Hidx) as [x Hx].
  unfold row_at. rewrite Hx. apply always_returns_ret. reflexivity.
Qed.

Lemma lookups_of_seq {A} (xs ys : list A) :
  Forall2 (fun i x => xs !! i = Some x) (seq 0 (length xs)) ys -> ys = xs.
Proof.
  intros H. pose proof (Forall2_length _ _ _ H) as Hlen. rewrite length_seq in Hlen.
  apply list_eq. intros i.
  destruct (Nat.lt_ge_cases i (length xs)) as [Hi | Hi].
  - destruct (Forall2_lookup_l _ _ _ _ _ H (lookup_seq_0 _ _ Hi)) as (y & Hy & Hx).
    rewrite Hy, Hx. reflexivity.
  - rewrite !lookup_ge_None_2 by lia. reflexivity.
Qed.

(** Reading a list through a rearrangement of its positions rearranges it. *)
Lemma lookups_of_perm {A} (xs out : list A) (indexer : list nat) :
  Permutation indexer (seq 0 (length xs)) ->
  Forall2 (fun i x => xs !! i = Some x) indexer out ->
  Permutation out xs.
Proof.
  intros Hperm Hout.
  destruct (Permutation_Forall2 Hperm Hout) as (out' & Hpo & Hout').
  rewrite Hpo. replace out' with xs; [reflexivity |].
  symmetry. apply lookups_of_seq, Hout'.
Qed.

Lemma keys_of_lookups {A} (key : A -> Z) (xs out : list A) (indexer : list nat) :
  Forall2 (fun i x => xs !! i = Some x) indexer out ->
  map key out = map (fun i => nth i (map key xs) 0) indexer.
Proof.
  induction 1 as [|i x indexer out Hx _ IH]; simpl; [reflexivity |].
  f_equal; [|exact IH].
  erewrite nth_lookup_Some; [reflexivity |].
  change (map key xs) with (key <$> xs). rewrite list_lookup_fmap, Hx. reflexivity.
Qed.

Lemma perm_seq_bound (indexer : list nat) n :
  Permutation indexer (seq 0 n) -> Forall (fun i => (i < n)%nat) indexer.
Proof.
  intros Hperm. eapply Permutation_Forall; [symmetry; exact Hperm |].
  apply List.Forall_forall. intros i Hi. apply in_seq in Hi. lia.
Qed.

Lemma mirror_seq_perm n : Permutation (map (fun j => n - 1 - j)%nat (seq 0 n)) (seq 0 n).
Proof.
  change (map (fun j => n - 1 - j)%nat (seq 0 n))
    with ((fun j => n - 1 - j)%nat <$> seq 0 n).
  apply NoDup_Permutation.
  - apply NoDup_fmap_2_strong; [|apply NoDup_seq].
    intros i j Hi Hj E. apply elem_of_seq in Hi, Hj. lia.
  - apply NoDup_seq.
  - intros x. rewrite list_elem_of_fmap, elem_of_seq. split.
    + intros (j & -> & Hj). apply elem_of_seq in Hj. lia.
    + intros Hx. exists (n - 1 - x)%nat. rewrite elem_of_seq. lia.
Qed.

Lemma StronglySorted_rev_ge l : StronglySorted Z.le l -> StronglySorted Z.ge (rev l).
Proof.
  induction 1 as [|x l Hl IH Hx]; simpl; [constructor |].
  assert (forall l', StronglySorted Z.ge l' -> Forall (fun y => y >= x) l' ->
                     StronglySorted Z.ge (l' ++ [x])) as Hsnoc.
  { induction 1 as [|y l' Hl' IH' Hy]; intros Hall; simpl.
    - constructor; constructor.
    - inversion Hall; subst. constructor; [apply IH'; assumption |].
      apply Forall_app. split; [exact Hy | constructor; [lia | constructor]]. }
  apply Hsnoc; [exact IH |].
  apply List.Forall_forall. intros y Hy. apply in_rev in Hy.
  rewrite List.Forall_forall in Hx. specialize (Hx y Hy). lia.
Qed.

Section SortValues.
Context {Algo : ArgSort} {Laws : ArgSortLaws Algo}.

Lemma nargsort_perm (ks : list Z) (ascending : bool) :
  Permutation (nargsort ks ascending) (seq 0 (length ks)).
Proof.
  unfold nargsort. destruct ascending; [apply argsort_perm |].
  rewrite <- Permutation_rev.
  rewrite (Permutation_map _ (argsort_perm (rev ks))), length_rev.
  apply mirror_seq_perm.
Qed.

Lemma nargsort_sorted (ks : list Z) (ascending : bool) :
  StronglySorted (if ascending then Z.le else Z.ge)
    (map (fun i => nth i ks 0) (nargsort ks ascending)).
Proof.
  unfold nargsort. destruct ascending; [apply argsort_sorted |].
  rewrite map_rev, map_map. apply StronglySorted_rev_ge.
  pose proof (argsort_sorted (rev ks)) as Hs.
  pose proof (perm_seq_bound _ _ (argsort_perm (rev ks))) as Hb.
  rewrite length_rev in Hb.
  erewrite map_ext_in; [exact Hs |].
  intros j Hj. simpl. rewrite List.Forall_forall in Hb. specialize (Hb j Hj).
  rewrite rev_nth by exact Hb. f_equal. lia.
Qed.

(** Whatever the algorithm, [sort_values] returns the rows rearranged so
    that the key column reads in the requested direction. *)
Lemma sort_values_spec {S A} (key : A -> Z) (ascending : bool) (xs : list A) :
  always_returns (S := S) (sort_values key ascending xs)
    (fun out => Permutation out xs /\ ordered_by key ascending out).
Proof.
  unfold sort_values.
  pose proof (nargsort_perm (map key xs) ascending) as Hperm.
  rewrite length_map in Hperm.
  eapply always_returns_weaken;
    [apply take_rows_spec, perm_seq_bound, Hperm |].
  intros out Hout. split.
  - eapply lookups_of_perm; eassumption.
  - unfold ordered_by. rewrite (keys_of_lookups key xs out _ Hout).
    apply nargsort_sorted.
Qed.
End SortValues.

(** ** Stable algorithms *)



Lemma StronglySorted_map_in {A B} (R : A -> A -> Prop) (R' : B -> B -> Prop)
      (f : A -> B) (l : list A) :
  (forall x y, In x l -> In y l -> R x y -> R' (f x) (f y)) ->
  StronglySorted R l -> StronglySorted R' (map f l).
Proof.
  intros Hf Hl. induction Hl as [|x l Hl IH Hx]; simpl; [constructor |].
  constructor.
  - apply IH. intros y z Hy Hz. apply Hf; right; assumption.
  - rewrite List.Forall_forall in Hx. apply List.Forall_forall.
    intros b Hb. apply in_map_iff in Hb as (y & <- & Hy).
    apply Hf; [left; reflexivity | right; exact Hy | apply Hx, Hy].
Qed.

Lemma StronglySorted_rev_flip {A} (R : A -> A -> Prop) (l : list A) :
  StronglySorted R l -> StronglySorted (fun x y => R y x) (rev l).
Proof.
  induction 1 as [|x l Hl IH Hx]; simpl; [constructor |].
  apply StronglySorted_app_2; [| exact IH | constructor; constructor].
  intros y z Hy Hz. apply list_elem_of_In in Hy. apply in_rev in Hy.
  apply list_elem_of_singleton in Hz. subst z.
  rewrite List.Forall_forall in Hx. apply Hx, Hy.
Qed.

Lemma insert_after_key_pos x l :
  StronglySorted key_pos_lt l ->
  Forall (fun p => (p.2 < x.2)%nat) l ->
  StronglySorted key_pos_lt (insert_after x l).
Proof.
  induction 1 as [|y l Hl IH Hy]; intros Hpos; simpl.
  - constructor; constructor.
  - inversion Hpos as [|? ? Hyx Hpos']; subst.
    destruct (Z.ltb_spec x.1 y.1) as [Hlt | Hge].
    + constructor; [constructor; assumption |].
      constructor; [left; exact Hlt |].
      eapply Forall_impl; [exact Hy |]. unfold key_pos_lt. intros z Hz; simpl in *. lia.
    + constructor; [apply IH, Hpos' |].
      eapply Permutation_Forall; [symmetry; apply insert_after_perm |].
      constructor; [unfold key_pos_lt; lia | exact Hy].
Qed.

Lemma foldl_insert_after_key_pos ks : forall s acc,
  StronglySorted key_pos_lt acc ->
  Forall (fun p => (p.2 < s)%nat) acc ->
  StronglySorted key_pos_lt
    (foldl (fun a x => insert_after x a) acc (zip ks (seq s (length ks)))).
Proof.
  induction ks as [|k ks IH]; intros s acc Hacc Hpos; simpl; [exact Hacc |].
  apply IH.
  - apply insert_after_key_pos; assumption.
  - eapply Permutation_Forall; [symmetry; apply insert_after_perm |].
    constructor; [simpl; lia |].
    eapply Forall_impl; [exact Hpos |]. intros p Hp; simpl in *. lia.
Qed.

Lemma insertion_argsort_stable : ArgSortStable insertion_argsort.
Proof.
  intros ks. unfold argsort, insertion_argsort.
  pose proof (foldl_insert_after_key_pos ks 0 [] ltac:(constructor) ltac:(constructor))
    as Hsorted.
  fold (keyed ks) in Hsorted.
  assert (Forall (fun p : Z * nat => nth p.2 ks 0 = p.1)
                 (foldl (fun a x => insert_after x a) [] (keyed ks))) as Hnth.
  { eapply Permutation_Forall;
      [symmetry; rewrite foldl_insert_after_perm, app_nil_r; reflexivity |].
    eapply Forall_impl; [apply (keyed_from 0 ks) |]. intros [key i] [_ H]. simpl in *.
    rewrite Nat.sub_0_r in H. exact H. }
  rewrite List.Forall_forall in Hnth.
  eapply StronglySorted_map_in; [| exact Hsorted].
  intros p q Hp Hq [Hlt | [_ Hlt]] Heq; [| exact Hlt].
  rewrite (Hnth p Hp), (Hnth q Hq) in Heq. lia.
Qed.



Section StableSortValues.
Context {Algo : ArgSort} {Laws : ArgSortLaws Algo} {Stable : ArgSortStable Algo}.


End StableSortValues.

(** On the sample table the insertion sort keeps P203 before P206, which
    share rating 4.3, in both directions. *)
Example sample_sorted_by_rating :
  match generate_initial_data sample_world with
  | Return df _ =>
      (match sort_values (Algo := insertion_argsort) Rating false df tt with
       | Return out _ => map ID out | Raise _ _ => [] end,
       match sort_values (Algo := insertion_argsort) Rating true df tt with
       | Return out _ => map ID out | Raise _ _ => [] end)
  | Raise _ _ => ([], [])
  end
  = (["P205"; "P202"; "P203"; "P206"; "P207"; "P204"; "P201"],
     ["P201"; "P204"; "P207"; "P203"; "P206"; "P202"; "P205"])%string.
Proof. vm_compute. reflexivity. Qed.




(** * Category performance *)

Lemma foldr_insert_key_perm l : Permutation (foldr insert_key [] l) l.
Proof.
  induction l as [|c l IH]; simpl; [reflexivity |].
  rewrite <- IH at 2. generalize (foldr insert_key [] l). clear.
  intros l. induction l as [|d l IH]; simpl; [reflexivity |].
  destruct (String.leb c d); [reflexivity |].
  rewrite IH. apply perm_swap.
Qed.

Lemma group_keys_spec (df : DataFrame) :
  NoDup (group_keys df)
  /\ forall c, c ∈ group_keys df <-> exists r, r ∈ df /\ Category r = c.
Proof.
  unfold group_keys. split.
  - rewrite foldr_insert_key_perm. apply NoDup_remove_dups.
  - intros c. rewrite foldr_insert_key_perm, elem_of_remove_dups.
    change (map Category df) with (Category <$> df).
    rewrite list_elem_of_fmap. split; intros (r & H1 & H2); eauto.
Qed.

Lemma filter_sum_is_category_total (df : DataFrame) (c : string) :
  series_sum (map YTD_Revenue (filter (fun r => Category r = c) df))
  = category_total df c.
Proof.
  unfold series_sum, category_total, Zsum.
  induction df as [|r df IH]; [reflexivity |].
  rewrite filter_cons. simpl. destruct (decide (Category r = c)); simpl; lia.
Qed.

Example sample_category_performance :
  match generate_initial_data sample_world with
  | Return df _ =>
      match category_performance (Algo := insertion_argsort) df tt with
      | Return perf _ => perf | Raise _ _ => [] end
  | Raise _ _ => []
  end
  = [("Wellness", 1933); ("Home Goods", 4835); ("Office", 8556);
     ("Electronics", 12093)]%string.
Proof. vm_compute. reflexivity. Qed.



(** * Caching and reruns *)

Section LeavesState.
Context {S : Type}.

Lemma leaves_state_ret {A} (a : A) : leaves_state (S := S) (ret a).
Proof. intros s. reflexivity. Qed.

Lemma leaves_state_raise {A} (e : exn) : leaves_state (S := S) (A := A) (raise e).
Proof. intros s. reflexivity. Qed.

Lemma leaves_state_bind {A B} (m : M S A) (k : A -> M S B) :
  leaves_state m -> (forall a, leaves_state (k a)) ->
  leaves_state (x <- m ;; k x).
Proof.
  intros Hm Hk s. unfold bind. specialize (Hm s).
  destruct (m s) as [a s1 | e s1]; simpl in Hm; subst s1; [apply Hk | reflexivity].
Qed.

Lemma leaves_state_for_each {A B} (body : A -> M S B) (xs : list A) :
  (forall x, leaves_state (body x)) -> leaves_state (for_each body xs).
Proof.
  intros Hbody. induction xs as [|x xs IH]; simpl; [apply leaves_state_ret |].
  apply leaves_state_bind; [apply Hbody |]. intros y.
  apply leaves_state_bind; [exact IH |]. intros ys. apply leaves_state_ret.
Qed.

Lemma leaves_state_row_at {A} (xs : list A) i : leaves_state (S := S) (row_at xs i).
Proof.
  unfold row_at. destruct (xs !! i); [apply leaves_state_ret | apply leaves_state_raise].
Qed.

Lemma leaves_state_sort_values {Algo : ArgSort} {A} (key : A -> Z) asc (xs : list A) :
  leaves_state (S := S) (sort_values key asc xs).
Proof. apply leaves_state_for_each. intros i. apply leaves_state_row_at. Qed.

Lemma leaves_state_comparison_grid ui df :
  leaves_state (S := S) (comparison_grid ui df).
Proof.
  unfold comparison_grid. apply leaves_state_bind.
  - unfold st_columns. destruct (_ <=? _); [apply leaves_state_raise | apply leaves_state_ret].
  - intros cols. apply leaves_state_for_each. intros [i prod_data].
    unfold place_card. apply leaves_state_bind.
    + unfold py_mod. destruct (_ =? _); [apply leaves_state_raise | apply leaves_state_ret].
    + intros c. apply leaves_state_bind; [| intros; apply leaves_state_ret].
      unfold list_getitem. destruct (_ && _);
        [apply leaves_state_row_at | apply leaves_state_raise].
Qed.

Lemma leaves_state_render_page {Algo : ArgSort} ui df :
  leaves_state (S := S) (render_page ui df).
Proof.
  unfold render_page.
  apply leaves_state_bind; [apply leaves_state_sort_values |]. intros sorted.
  apply leaves_state_bind; [apply leaves_state_comparison_grid |]. intros grid.
  apply leaves_state_bind; [apply leaves_state_sort_values |]. intros perf.
  apply leaves_state_ret.
Qed.

Lemma render_page_shows {Algo : ArgSort} ui df (s s' : S) pg :
  render_page ui df s = Return pg s' -> df_products pg = df.
Proof.
  unfold render_page, bind, ret.
  destruct (sort_values _ _ df s) as [sorted s1 |]; [|discriminate].
  destruct (comparison_grid ui sorted s1) as [grid s2 |]; [|discriminate].
  destruct (category_performance df s2) as [perf s3 |]; [|discriminate].
  intros [=]. subst pg. reflexivity.
Qed.
End LeavesState.

Lemma st_cache_data_hit body p df :
  cache_data p = Some df -> st_cache_data body p = Return df p.
Proof. intros Hc. unfold st_cache_data. rewrite Hc. reflexivity. Qed.

Lemma run_script_on_built {Algo : ArgSort} ui p df :
  cache_data p = Some df ->
  state_after (run_script ui p) = p
  /\ forall pg p', run_script ui p = Return pg p' -> df_products pg = df.
Proof.
  intros Hc. unfold run_script, bind. rewrite (st_cache_data_hit _ p df Hc).
  split; [apply leaves_state_render_page |].
  intros pg p'. apply render_page_shows.
Qed.

Lemma session_on_built {Algo : ArgSort} uis p df :
  cache_data p = Some df -> session uis p = p.
Proof.
  intros Hc. unfold session. induction uis as [|ui uis IH]; simpl; [reflexivity |].
  unfold rerun at 2. rewrite (proj1 (run_script_on_built ui p df Hc)). exact IH.
Qed.

(** C3.  Starting from a process whose cache is empty, the table is built
    by the first retrieval and stored; a second retrieval returns the same
    table (same rows, same values, same order) and leaves the process,
    random generators included, untouched.  After the run that built it,
    no sequence of reruns of the script changes the process state (the
    stored table and the generators stay as the build left them), and
    every page rendered shows the same table. *)
Theorem catalog_is_built_once {Algo : ArgSort} (p : process) :
  cache_data p = None ->
  exists df w,
    generate_initial_data (rand p) = Return df w
    /\ st_cache_data generate_initial_data p = Return df (Process w (Some df))
    /\ st_cache_data generate_initial_data (Process w (Some df))
       = Return df (Process w (Some df))
    /\ (forall ui uis, session (ui :: uis) p = Process w (Some df))
    /\ (forall uis ui pg p',
          run_script ui (session uis (Process w (Some df))) = Return pg p' ->
          df_products pg = df /\ p' = Process w (Some df)).
Proof.
  intros Hnone.
  destruct (generate_initial_data_rows (rand p)) as (df & w & Egen & _).
  exists df, w. set (p1 := Process w (Some df)).
  assert (st_cache_data generate_initial_data p = Return df p1) as Emiss.
  { unfold st_cache_data. rewrite Hnone, Egen. reflexivity. }
  split; [exact Egen |]. split; [exact Emiss |].
  split; [apply st_cache_data_hit; reflexivity |]. split.
  - intros ui uis. unfold session. simpl. fold (session uis (rerun p ui)).
    assert (rerun p ui = p1) as ->.
    { unfold rerun, run_script, bind. rewrite Emiss. apply leaves_state_render_page. }
    apply (session_on_built uis p1 df). reflexivity.
  - intros uis ui pg p' Erun.
    rewrite (session_on_built uis p1 df eq_refl) in Erun.
    destruct (run_script_on_built ui p1 df eq_refl) as [Hstate Hshows].
    split; [eapply Hshows, Erun |].
    rewrite Erun in Hstate. simpl in Hstate. exact Hstate.
Qed.

Lemma catalog_is_built_once_witness :
  cache_data (Process sample_world None) = None
  /\ exists df w,
       st_cache_data generate_initial_data (Process sample_world None)
       = Return df (Process w (Some df)).
Proof.
  split; [reflexivity |].
  destruct (catalog_is_built_once (Algo := insertion_argsort)
              (Process sample_world None) eq_refl)
    as (df & w & _ & E & _).
  exists df, w. exact E.
Defined.

(** * More about the generated table *)

Lemma always_returns_conj {S A} (m : M S A) (P Q : A -> Prop) :
  always_returns m P -> always_returns m Q -> always_returns m (fun a => P a /\ Q a).
Proof.
  intros HP HQ s. destruct (HP s) as (a & s1 & E & Pa).
  destruct (HQ s) as (a' & s1' & E' & Qa). rewrite E in E'. injection E' as <- <-.
  exists a, s1. auto.
Qed.

Lemma always_returns_True {S A} (m : M S A) (P : A -> Prop) :
  always_returns m P -> always_returns m (fun _ => True).
Proof. intros H. eapply always_returns_weaken; [exact H | auto]. Qed.

Lemma round_half_even_between (x : Q) (a b : Z) :
  (inject_Z a <= x)%Q -> (x <= inject_Z b)%Q -> a <= round_half_even x <= b.
Proof.
  intros Ha Hb. destruct (round_half_even_close x) as [H1 H2].
  assert (inject_Z (a - 1) < inject_Z (round_half_even x))%Q as Hlo.
  { unfold Z.sub. rewrite inject_Z_plus, inject_Z_opp. change (inject_Z 1) with 1%Q. lra. }
  assert (inject_Z (round_half_even x) < inject_Z (b + 1))%Q as Hhi.
  { rewrite inject_Z_plus. change (inject_Z 1) with 1%Q. lra. }
  rewrite <- Zlt_Qlt in Hlo, Hhi. lia.
Qed.

Lemma random_random_unit : always_returns random_random (fun u => 0 <= u < 1)%Q.
Proof.
  intros w. eexists _, _. split; [reflexivity |].
  pose proof (Z.mod_pos_bound (Z.of_N (raw (py_random w) (cursor (py_random w))))
                (2 ^ 53) ltac:(lia)) as Hb.
  unfold Qle, Qlt. simpl Qnum. simpl Qden.
  change (Z.pos (2 ^ 53)) with (2 ^ 53). lia.
Qed.

Lemma random_uniform_range (a b : Q) :
  (a <= b)%Q -> always_returns (random_uniform a b) (fun u => a <= u <= b)%Q.
Proof.
  intros Hab. unfold random_uniform.
  eapply always_returns_bind; [apply random_random_unit |].
  intros u [Hu0 Hu1]. apply always_returns_ret. split; nra.
Qed.

Lemma product_row_attrs i name :
  is_Some (product_categories_map !! name) ->
  always_returns (product_row i name) attrs_in_range.
Proof.
  intros [cat Hcat]. unfold product_row, rev_trend, units_trend.
  eapply always_returns_bind;
    [eapply always_returns_True; apply clipped_walk_spec; lia |]. intros rev _.
  eapply always_returns_bind;
    [eapply always_returns_True; apply clipped_walk_spec; lia |]. intros units _.
  eapply always_returns_bind; [eapply always_returns_True, chan_dist_percent |].
  intros dist _.
  eapply always_returns_bind with (P := fun _ => True).
  { unfold dict_getitem. rewrite Hcat. apply always_returns_ret. exact I. }
  intros c _.
  eapply always_returns_bind; [apply (random_uniform_range 3.5 4.9); lra |].
  intros u [Hu1 Hu2].
  eapply always_returns_bind; [apply random_choice_returns; discriminate |].
  intros stock Hstock.
  eapply always_returns_bind; [apply (random_randint_range 60 125); lia |].
  intros target Htarget.
  apply always_returns_ret. unfold attrs_in_range. simpl.
  split; [| split; assumption].
  unfold round1. apply round_half_even_between.
  - change (inject_Z 35) with 35%Q. lra.
  - change (inject_Z 49) with 49%Q. lra.
Qed.

(** Every row, with what it is made of and the ranges of its attributes. *)
Lemma generate_initial_data_rows_attrs :
  always_returns generate_initial_data
    (fun df => Forall2 (fun x r => row_from x.1 x.2 r /\ attrs_in_range r)
                       (enumerate product_names) df).
Proof.
  unfold generate_initial_data.
  eapply always_returns_bind.
  - apply always_returns_for_each
      with (P := fun (x : nat * string) r => row_from x.1 x.2 r /\ attrs_in_range r).
    intros [i name] Hin.
    pose proof (product_names_have_category i name Hin) as Hcat.
    apply always_returns_conj; [apply product_row_spec | apply product_row_attrs];
      exact Hcat.
  - intros rows Hrows. unfold set_index_ID.
    destruct rows as [|r rows]; [inversion Hrows |].
    apply always_returns_ret, Hrows.
Qed.

Lemma generate_initial_data_each_attrs (P : product -> Prop) :
  (forall i name r, row_from i name r -> attrs_in_range r -> P r) ->
  always_returns generate_initial_data (Forall P).
Proof.
  intros HP. eapply always_returns_weaken; [apply generate_initial_data_rows_attrs |].
  intros df Hrows. simpl in Hrows.
  induction Hrows as [|[i name] r xs rs [Hr Ha] _ IH]; constructor; eauto.
Qed.

Lemma rows_identity (xs : list (nat * string)) (df : DataFrame) :
  Forall2 (fun x r => row_from x.1 x.2 r) xs df ->
  map ID df = map (fun x => product_id x.1) xs
  /\ map Name df = map snd xs
  /\ map (fun r => Some (Category r)) df
     = map (fun x => product_categories_map !! x.2) xs.
Proof.
  induction 1 as [|[i name] r xs df Hr _ (IH1 & IH2 & IH3)]; [auto |].
  cbn [map fst snd] in *.
  destruct Hr as [rev_d units_d dist cat u stock target _ _ _ _ _ _ _ _ _ Hcat].
  cbn [ID Name Category]. rewrite IH1, IH2, IH3, Hcat. auto.
Qed.

Lemma generate_initial_data_identity :
  always_returns generate_initial_data
    (fun df =>
       map ID df = ["P201"; "P202"; "P203"; "P204"; "P205"; "P206"; "P207"]%string
       /\ map Name df = product_names
       /\ map Category df
          = ["Electronics"; "Home Goods"; "Wellness"; "Office"; "Electronics";
             "Electronics"; "Office"]%string).
Proof.
  eapply always_returns_weaken; [apply generate_initial_data_rows |].
  intros df Hrows. apply rows_identity in Hrows as (H1 & H2 & H3).
  split; [rewrite H1; vm_compute; reflexivity |].
  split; [rewrite H2; vm_compute; reflexivity |].
  assert (map (fun x : nat * string => product_categories_map !! x.2)
              (enumerate product_names)
          = map Some ["Electronics"; "Home Goods"; "Wellness"; "Office";
                      "Electronics"; "Electronics"; "Office"]%string) as E
    by (vm_compute; reflexivity).
  rewrite E in H3. clear -H3.
  revert H3. generalize ["Electronics"; "Home Goods"; "Wellness"; "Office";
                         "Electronics"; "Electronics"; "Office"]%string.
  induction df as [|r df IH]; intros [|c cs] H; simpl in *; try discriminate;
    [reflexivity |].
  injection H as -> H. f_equal. apply IH, H.
Qed.

(** X1.  Whatever the entropy, the table has seven rows, and their
    identifiers, names and categories are fixed: P201 to P207 in the order
    of [product_names], each with the category the map gives its name. *)
Theorem table_identity_columns :
  always_returns generate_initial_data
    (fun df =>
       map ID df = ["P201"; "P202"; "P203"; "P204"; "P205"; "P206"; "P207"]%string
       /\ map Name df = product_names
       /\ map Category df
          = ["Electronics"; "Home Goods"; "Wellness"; "Office"; "Electronics";
             "Electronics"; "Office"]%string).
Proof. exact generate_initial_data_identity. Qed.

Lemma product_id_inj (i j : nat) : product_id i = product_id j -> i = j.
Proof.
  unfold product_id. intros H. injection H as H.
  apply (f_equal NilZero.uint_of_string) in H.
  assert (forall n, NilZero.uint_of_string (NilZero.string_of_uint (Nat.to_uint (n + 201)))
                    = Some (Nat.to_uint (n + 201))) as Husu.
  { intros n. apply NilZero.usu. intros Hnil.
    apply (f_equal Nat.of_uint) in Hnil. rewrite DecimalNat.Unsigned.of_to in Hnil.
    change (Nat.of_uint Decimal.Nil) with 0%nat in Hnil. lia. }
  change (NilZero.uint_of_string (NilZero.string_of_uint (Nat.to_uint (i + 201)))
          = NilZero.uint_of_string (NilZero.string_of_uint (Nat.to_uint (j + 201))))
    in H.
  rewrite !Husu in H. injection H as H.
  apply DecimalNat.Unsigned.to_uint_inj in H. lia.
Qed.

(** X2.  Identifiers never collide: two different positions get different
    identifiers, however long the product list. *)
Theorem product_ids_distinct (i j : nat) :
  i <> j -> product_id i <> product_id j.
Proof. intros Hne Heq. apply Hne, product_id_inj, Heq. Qed.

Lemma product_ids_distinct_witness :
  0%nat <> 6%nat /\ product_id 0 <> product_id 6.
Proof. split; [lia | apply product_ids_distinct; lia]. Defined.

(** X3.  In every row the rating is between 3.5 and 4.9 (35 to 49 tenths),
    the stock state is one of In Stock, Low and Out, and the target
    percentage is between 60 and 125.  Both ends of the rating and target
    ranges occur: some entropy gives every row rating 3.5 and target 60,
    and some gives every row rating 4.9 and target 125. *)
Theorem scalar_attributes_in_range :
  always_returns generate_initial_data
    (Forall (fun r =>
       35 <= Rating r <= 49
       /\ In (Stock r) ["In Stock"; "Low"; "Out"]%string
       /\ 60 <= Target_Met_pct r <= 125))
  /\ (exists w df w',
        generate_initial_data w = Return df w'
        /\ map (fun r => (Rating r, Target_Met_pct r)) df = repeat (35, 60) 7)
  /\ (exists w df w',
        generate_initial_data w = Return df w'
        /\ map (fun r => (Rating r, Target_Met_pct r)) df = repeat (49, 125) 7).
Proof.
  split; [| split].
  - apply generate_initial_data_each_attrs. intros i name r _ Hr. exact Hr.
  - exists (constant_world 0 0).
    exists (match generate_initial_data (constant_world 0 0) with
            | Return df _ => df | Raise _ _ => [] end).
    exists (state_after (generate_initial_data (constant_world 0 0))).
    split; vm_compute; reflexivity.
  - exists (constant_world 0 (2 ^ 53 - 9)).
    exists (match generate_initial_data (constant_world 0 (2 ^ 53 - 9)) with
            | Return df _ => df | Raise _ _ => [] end).
    exists (state_after (generate_initial_data (constant_world 0 (2 ^ 53 - 9)))).
    split; vm_compute; reflexivity.
Qed.

(** * Magnitudes *)

Lemma cumsum_from_lookup_bounds lo hi xs :
  Forall (fun x => lo <= x <= hi) xs ->
  forall acc k e,
    cumsum_from acc xs !! k = Some e ->
    acc + (Z.of_nat k + 1) * lo <= e <= acc + (Z.of_nat k + 1) * hi.
Proof.
  induction 1 as [|x xs Hx _ IH]; intros acc k e Hk; [discriminate |].
  destruct k as [|k]; simpl in Hk.
  - injection Hk as <-. simpl. lia.
  - specialize (IH _ _ _ Hk). rewrite Nat2Z.inj_succ. nia.
Qed.

Lemma walk_lookup_bounds a b c d floor dr k y :
  in_range a b dr.1 -> Forall (in_range c d) dr.2 ->
  walk floor dr !! k = Some y ->
  Z.max floor (a + (Z.of_nat k + 1) * c) <= y
  /\ y <= Z.max floor (b - 1 + (Z.of_nat k + 1) * (d - 1)).
Proof.
  intros Hstart Hsteps Hy. unfold walk, np_clip, np_cumsum in Hy.
  change (map (clip1 (Some floor) None) (map (Z.add dr.1) (cumsum_from 0 dr.2)))
    with (clip1 (Some floor) None <$> (Z.add dr.1 <$> cumsum_from 0 dr.2)) in Hy.
  rewrite !list_lookup_fmap in Hy.
  destruct (cumsum_from 0 dr.2 !! k) as [e|] eqn:He; [|discriminate].
  simpl in Hy. injection Hy as <-.
  assert (Forall (fun x => c <= x <= d - 1) dr.2) as Hsteps'.
  { eapply Forall_impl; [exact Hsteps |]. unfold in_range. intros; lia. }
  pose proof (cumsum_from_lookup_bounds _ _ _ Hsteps' _ _ _ He) as Hb.
  unfold in_range in Hstart. unfold clip1. lia.
Qed.

Lemma row_from_magnitudes i name r :
  row_from i name r ->
  (forall k x, Revenue_Trend r !! k = Some x ->
               50 <= x <= 1499 + 149 * (Z.of_nat k + 1))
  /\ (forall k x, Units_Trend r !! k = Some x ->
                  5 <= x <= 79 + 19 * (Z.of_nat k + 1))
  /\ Forall (fun x => 50 <= x <= 3287) (Revenue_Trend r)
  /\ Forall (fun x => 5 <= x <= 307) (Units_Trend r)
  /\ 150 <= YTD_Revenue r <= 9414
  /\ 15 <= YTD_Units r <= 864.
Proof.
  intros Hr. destruct Hr as [rev_d units_d dist cat u stock target
    R1 Rlen R3 U1 Ulen U3 _ _ _ _].
  cbn [Revenue_Trend Units_Trend YTD_Revenue YTD_Units].
  assert (forall k x, walk 50 rev_d !! k = Some x ->
                      50 <= x <= 1499 + 149 * (Z.of_nat k + 1)) as HR.
  { intros k x Hk.
    pose proof (walk_lookup_bounds _ _ _ _ _ _ _ _ R1 R3 Hk). lia. }
  assert (forall k x, walk 5 units_d !! k = Some x ->
                      5 <= x <= 79 + 19 * (Z.of_nat k + 1)) as HU.
  { intros k x Hk.
    pose proof (walk_lookup_bounds _ _ _ _ _ _ _ _ U1 U3 Hk). lia. }
  split; [exact HR |]. split; [exact HU |].
  split; [| split; [| split]].
  - apply Forall_lookup. intros k x Hk. specialize (HR k x Hk).
    apply lookup_lt_Some in Hk. rewrite length_walk, Rlen in Hk.
    unfold num_months in Hk. lia.
  - apply Forall_lookup. intros k x Hk. specialize (HU k x Hk).
    apply lookup_lt_Some in Hk. rewrite length_walk, Ulen in Hk.
    unfold num_months in Hk. lia.
  - destruct (last_k_3_split (walk 50 rev_d)) as (pre & a & b & c & E1 & E2 & E3).
    { rewrite length_walk, Rlen. unfold num_months. lia. }
    rewrite length_walk, Rlen in E3. unfold num_months in E3. simpl in E3.
    rewrite E2. rewrite E1 in HR.
    pose proof (HR 9%nat a) as Ha. pose proof (HR 10%nat b) as Hb.
    pose proof (HR 11%nat c) as Hc.
    rewrite lookup_app_r, E3 in Ha, Hb, Hc by lia.
    specialize (Ha eq_refl). specialize (Hb eq_refl). specialize (Hc eq_refl).
    unfold Zsum. simpl. lia.
  - destruct (last_k_3_split (walk 5 units_d)) as (pre & a & b & c & E1 & E2 & E3).
    { rewrite length_walk, Ulen. unfold num_months. lia. }
    rewrite length_walk, Ulen in E3. unfold num_months in E3. simpl in E3.
    rewrite E2. rewrite E1 in HU.
    pose proof (HU 9%nat a) as Ha. pose proof (HU 10%nat b) as Hb.
    pose proof (HU 11%nat c) as Hc.
    rewrite lookup_app_r, E3 in Ha, Hb, Hc by lia.
    specialize (Ha eq_refl). specialize (Hb eq_refl). specialize (Hc eq_refl).
    unfold Zsum. simpl. lia.
Qed.

(** X4.  Magnitudes.  Month [k] (from 0) of a revenue trend lies between
    50 and 1499 + 149 (k + 1), and of a units trend between 5 and
    79 + 19 (k + 1); so no revenue figure exceeds 3287 and no units figure
    307, the revenue of the last quarter is between 150 and 9414 and its
    units between 15 and 864, all far inside the 64-bit integer range.
    The upper bounds are attained on some entropy. *)
Theorem trend_magnitudes :
  always_returns generate_initial_data
    (Forall (fun r =>
       (forall k x, Revenue_Trend r !! k = Some x ->
                    50 <= x <= 1499 + 149 * (Z.of_nat k + 1))
       /\ (forall k x, Units_Trend r !! k = Some x ->
                       5 <= x <= 79 + 19 * (Z.of_nat k + 1))
       /\ Forall (fun x => 50 <= x <= 3287) (Revenue_Trend r)
       /\ Forall (fun x => 5 <= x <= 307) (Units_Trend r)
       /\ 150 <= YTD_Revenue r <= 9414
       /\ 15 <= YTD_Units r <= 864))
  /\ (exists w df w',
        generate_initial_data w = Return df w'
        /\ Forall (fun r => last (Revenue_Trend r) = Some 3287
                            /\ last (Units_Trend r) = Some 307
                            /\ YTD_Revenue r = 9414 /\ YTD_Units r = 864) df).
Proof.
  split.
  - apply generate_initial_data_each. apply row_from_magnitudes.
  - exists (constant_world 41999 0).
    exists (match generate_initial_data (constant_world 41999 0) with
            | Return df _ => df | Raise _ _ => [] end).
    exists (state_after (generate_initial_data (constant_world 41999 0))).
    split; [vm_compute; reflexivity |].
    vm_compute. repeat constructor.
Qed.

(** * KPIs and categories of the generated table *)

Lemma Zsum_bounds lo hi xs :
  Forall (fun x => lo <= x <= hi) xs ->
  Z.of_nat (length xs) * lo <= Zsum xs <= Z.of_nat (length xs) * hi.
Proof.
  unfold Zsum. induction 1 as [|x xs Hx _ IH]; [simpl; lia |].
  cbn [length foldr]. rewrite Nat2Z.inj_succ. nia.
Qed.

Lemma generate_initial_data_table (P : product -> Prop) :
  (forall i name r, row_from i name r -> attrs_in_range r -> P r) ->
  always_returns generate_initial_data (fun df => length df = 7%nat /\ Forall P df).
Proof.
  intros HP. eapply always_returns_weaken; [apply generate_initial_data_rows_attrs |].
  intros df Hrows. split.
  - apply Forall2_length in Hrows. rewrite <- Hrows. reflexivity.
  - simpl in Hrows.
    induction Hrows as [|[i name] r xs rs [Hr Ha] _ IH]; constructor; eauto.
Qed.

Lemma Forall_map_bounds {A} (f : A -> Z) (P : A -> Prop) lo hi (xs : list A) :
  (forall x, P x -> lo <= f x <= hi) -> Forall P xs ->
  Forall (fun y => lo <= y <= hi) (map f xs).
Proof. intros Hf. induction 1; simpl; constructor; auto. Qed.

(** X5.  On the generated table the three KPIs are always defined and
    bounded: total revenue between 1050 and 65898, total units between 105
    and 6048, and the average rating is a number (never NaN) between 3.5
    and 4.9. *)
Theorem kpis_of_generated_table :
  always_returns generate_initial_data
    (fun df =>
       1050 <= total_revenue df <= 65898
       /\ 105 <= total_units df <= 6048
       /\ exists q, avg_rating df = Finite q /\ (35 # 10 <= q <= 49 # 10)%Q).
Proof.
  eapply always_returns_weaken.
  { apply (generate_initial_data_table
             (fun r => (150 <= YTD_Revenue r <= 9414 /\ 15 <= YTD_Units r <= 864)
                       /\ attrs_in_range r)).
    intros i name r Hr Ha. split; [| exact Ha].
    apply row_from_magnitudes in Hr. tauto. }
  intros df (Hlen & Hall).
  assert (Forall (fun r => 150 <= YTD_Revenue r <= 9414 /\ 15 <= YTD_Units r <= 864) df)
    as Hmag by (eapply Forall_impl; [exact Hall | intros r Hr; apply Hr]).
  assert (Forall attrs_in_range df)
    as Hattr by (eapply Forall_impl; [exact Hall | intros r Hr; apply Hr]).
  clear Hall.
  unfold total_revenue, total_units, avg_rating, series_sum.
  pose proof (Zsum_bounds 150 9414 (map YTD_Revenue df)) as HR.
  pose proof (Zsum_bounds 15 864 (map YTD_Units df)) as HU.
  pose proof (Zsum_bounds 35 49 (map Rating df)) as HA.
  rewrite length_map, Hlen in HR, HU, HA.
  split; [| split].
  - apply HR. eapply Forall_map_bounds; [| exact Hmag]. intros r Hr. apply Hr.
  - apply HU. eapply Forall_map_bounds; [| exact Hmag]. intros r Hr. apply Hr.
  - assert (245 <= Zsum (map Rating df) <= 343) as Hsum.
    { assert (Forall (fun y => 35 <= y <= 49) (map Rating df)) as Hall.
      { eapply Forall_map_bounds; [| exact Hattr]. intros r Hr. apply Hr. }
      specialize (HA Hall). lia. }
    unfold series_mean.
    destruct (map Rating df) as [|x xs] eqn:E.
    { apply (f_equal length) in E. rewrite length_map, Hlen in E. discriminate. }
    eexists. split; [reflexivity |].
    apply (f_equal length) in E. rewrite length_map, Hlen in E. rewrite <- E.
    change (10 * inject_Z (Z.of_nat 7))%Q with 70%Q.
    destruct Hsum as [Hlo Hhi]. rewrite Zle_Qle in Hlo, Hhi.
    change (inject_Z 245) with 245%Q in Hlo. change (inject_Z 343) with 343%Q in Hhi.
    split.
    + apply Qle_shift_div_l; [reflexivity | lra].
    + apply Qle_shift_div_r; [reflexivity | lra].
Qed.

Lemma Zsum_map_add {A} (f g : A -> Z) (xs : list A) :
  Zsum (map (fun x => f x + g x) xs) = Zsum (map f xs) + Zsum (map g xs).
Proof. unfold Zsum. induction xs as [|x xs IH]; simpl; lia. Qed.

Lemma Zsum_indicator (keys : list string) (c : string) (y : Z) :
  NoDup keys -> c ∈ keys ->
  Zsum (map (fun k => if decide (c = k) then y else 0) keys) = y.
Proof.
  unfold Zsum. induction 1 as [|k keys Hk Hnd IH]; intros Hc; [inversion Hc |].
  simpl. destruct (decide (c = k)) as [-> | Hne].
  - assert (foldr Z.add 0 (map (fun k0 => if decide (k = k0) then y else 0) keys) = 0)
      as ->; [| lia].
    clear IH Hc Hnd. induction keys as [|k' keys IH]; [reflexivity |].
    simpl. destruct (decide (k = k')) as [-> | _].
    + exfalso. apply Hk. left.
    + apply IH. intros Hin. apply Hk. right. exact Hin.
  - rewrite IH; [lia |]. inversion Hc; subst; [congruence | assumption].
Qed.

Lemma category_totals_partition (df : DataFrame) (keys : list string) :
  NoDup keys -> (forall r, r ∈ df -> Category r ∈ keys) ->
  Zsum (map (category_total df) keys) = Zsum (map YTD_Revenue df).
Proof.
  intros Hnd. induction df as [|r df IH]; intros Hcover.
  - unfold category_total, Zsum. simpl. clear.
    induction keys as [|k keys IH]; simpl; [reflexivity | exact IH].
  - assert (forall k, category_total (r :: df) k
                      = (if decide (Category r = k) then YTD_Revenue r else 0)
                        + category_total df k) as Hstep by (intros; reflexivity).
    rewrite (map_ext _ _ Hstep), Zsum_map_add.
    rewrite Zsum_indicator; [| exact Hnd | apply Hcover; left].
    rewrite IH by (intros r' Hr'; apply Hcover; right; exact Hr').
    reflexivity.
Qed.

Lemma category_performance_sum
    {Algo : ArgSort} (Laws : ArgSortLaws Algo) {S} (df : DataFrame) :
  always_returns (S := S) (category_performance df)
    (fun perf => Zsum (map snd perf) = total_revenue df).
Proof.
  unfold category_performance.
  eapply always_returns_weaken; [apply sort_values_spec |].
  intros perf [Hperm _].
  rewrite (Zsum_Permutation _ _ (Permutation_map snd Hperm)).
  unfold groupby_sum, total_revenue, series_sum. rewrite map_map. cbn [snd].
  destruct (group_keys_spec df) as [Hnd Hin].
  erewrite map_ext; [apply (category_totals_partition df _ Hnd) |].
  - intros r Hr. apply Hin. eauto.
  - intros c. apply filter_sum_is_category_total.
Qed.

(** X6.  The category totals add up to the total revenue: every row is
    counted in exactly one category. *)
Theorem category_totals_sum_to_total_revenue
    {Algo : ArgSort} (Laws : ArgSortLaws Algo) {S} (df : DataFrame) :
  always_returns (S := S) (category_performance df)
    (fun perf => Zsum (map snd perf) = total_revenue df).
Proof. apply category_performance_sum, Laws. Qed.

Lemma category_totals_sum_to_total_revenue_witness :
  ArgSortLaws insertion_argsort
  /\ always_returns (S := unit)
       (category_performance (Algo := insertion_argsort) sample_df)
       (fun perf => Zsum (map snd perf) = total_revenue sample_df).
Proof.
  split; [exact insertion_argsort_laws |].
  exact (category_totals_sum_to_total_revenue insertion_argsort_laws sample_df).
Defined.

Lemma category_performance_keys {Algo : ArgSort} {Laws : ArgSortLaws Algo} {S}
      (df : DataFrame) :
  always_returns (S := S) (category_performance df)
    (fun perf => Permutation (map fst perf) (group_keys df)).
Proof.
  unfold category_performance.
  eapply always_returns_weaken; [apply sort_values_spec |].
  intros perf [Hperm _].
  rewrite (Permutation_map fst Hperm). unfold groupby_sum.
  rewrite map_map. simpl. rewrite map_id. reflexivity.
Qed.

Lemma group_keys_nil_iff (df : DataFrame) : group_keys df = [] <-> df = [].
Proof.
  split; [| intros ->; reflexivity].
  intros Hk. destruct df as [|r df]; [reflexivity |]. exfalso.
  destruct (group_keys_spec (r :: df)) as [_ Hin].
  assert (Category r ∈ group_keys (r :: df)) as H
    by (apply Hin; exists r; split; [left | reflexivity]).
  rewrite Hk in H. inversion H.
Qed.

(** X7.  The category chart is drawn exactly when the table has rows:
    the "no category data" branch is taken only for a table without rows.
    When drawn, the chart has one bar per distinct category and its
    height is [max(200, 40 n + 50)] for [n] bars, so never under 200. *)
Theorem category_chart_shown_iff_rows
    {Algo : ArgSort} (Laws : ArgSortLaws Algo) {S} (df : DataFrame) :
  always_returns (S := S) (category_performance df)
    (fun perf =>
       (category_chart_section perf = No_category_data <-> df = [])
       /\ (df <> [] ->
           exists height,
             category_chart_section perf = Bar_chart perf height
             /\ length perf = length (remove_dups (map Category df))
             /\ height = Z.max 200 (40 * Z.of_nat (length perf) + 50)
             /\ 200 <= height)).
Proof.
  eapply always_returns_weaken; [apply category_performance_keys |].
  intros perf Hperm.
  assert (perf = [] <-> df = []) as Hnil.
  { rewrite <- group_keys_nil_iff. split.
    - intros ->. simpl in Hperm. apply Permutation_nil, Hperm.
    - intros Hk. rewrite Hk in Hperm. symmetry in Hperm.
      apply Permutation_nil in Hperm.
      destruct perf; [reflexivity | discriminate]. }
  split.
  - rewrite <- Hnil. destruct perf; simpl; split; intros; congruence.
  - intros Hne. exists (chart_height (length perf)).
    split; [destruct perf; [tauto | reflexivity] |]. split; [| unfold chart_height; lia].
    apply Permutation_length in Hperm. rewrite length_map in Hperm. rewrite Hperm.
    unfold group_keys. apply Permutation_length, foldr_insert_key_perm.
Qed.

Lemma category_chart_shown_iff_rows_witness :
  ArgSortLaws insertion_argsort
  /\ exists perf,
       category_performance (Algo := insertion_argsort) [] tt = Return perf tt
       /\ category_chart_section perf = No_category_data.
Proof.
  split; [exact insertion_argsort_laws |].
  destruct (category_chart_shown_iff_rows insertion_argsort_laws (S := unit) [] tt)
    as (perf & [] & E & Hiff & _).
  exists perf. split; [exact E | apply Hiff; reflexivity].
Defined.

(** X8.  For the generated table the chart always has the same four bars,
    Electronics, Home Goods, Office and Wellness (in the order of their
    totals), and is 210 high. *)
Theorem generated_category_chart
    {Algo : ArgSort} (Laws : ArgSortLaws Algo) {S} :
  always_returns generate_initial_data
    (fun df =>
       always_returns (S := S) (category_performance df)
         (fun perf =>
            Permutation (map fst perf)
              ["Electronics"; "Home Goods"; "Office"; "Wellness"]%string
            /\ category_chart_section perf = Bar_chart perf 210)).
Proof.
  eapply always_returns_weaken; [apply generate_initial_data_identity |].
  intros df (_ & _ & Hcat).
  eapply always_returns_weaken; [apply category_performance_keys |].
  intros perf Hperm.
  assert (group_keys df = ["Electronics"; "Home Goods"; "Office"; "Wellness"]%string)
    as Hkeys by (unfold group_keys; rewrite Hcat; vm_compute; reflexivity).
  rewrite Hkeys in Hperm. split; [exact Hperm |].
  apply Permutation_length in Hperm. rewrite length_map in Hperm. simpl in Hperm.
  destruct perf as [|p perf]; [discriminate |].
  unfold category_chart_section. rewrite Hperm. reflexivity.
Qed.

Lemma generated_category_chart_witness :
  ArgSortLaws insertion_argsort
  /\ exists df w perf,
       generate_initial_data sample_world = Return df w
       /\ category_performance (Algo := insertion_argsort) df tt = Return perf tt
       /\ category_chart_section perf = Bar_chart perf 210.
Proof.
  split; [exact insertion_argsort_laws |].
  destruct (generated_category_chart insertion_argsort_laws (S := unit) sample_world)
    as (df & w & E & Hperf).
  destruct (Hperf tt) as (perf & [] & E' & _ & Hchart).
  exists df, w, perf. auto.
Defined.

(** * Sorting without ties *)

Lemma NoDup_map_inj_on {A B} (f : A -> B) (l : list A) (x y : A) :
  NoDup (map f l) -> x ∈ l -> y ∈ l -> f x = f y -> x = y.
Proof.
  induction l as [|a l IH]; intros Hnd Hx Hy Hf; [inversion Hx |].
  simpl in Hnd. apply NoDup_cons in Hnd as [Ha Hnd].
  assert (forall z, z ∈ l -> f z ∈ map f l) as Hin.
  { intros z Hz. change (map f l) with (f <$> l). apply list_elem_of_fmap. eauto. }
  inversion Hx; inversion Hy; subst; try reflexivity.
  - exfalso. apply Ha. rewrite Hf. auto.
  - exfalso. apply Ha. rewrite <- Hf. auto.
  - apply IH; assumption.
Qed.

Lemma same_keys_same_rows {A} (key : A -> Z) (df out1 out2 : list A) :
  NoDup (map key df) ->
  Permutation out1 df -> Permutation out2 df ->
  map key out1 = map key out2 -> out1 = out2.
Proof.
  intros Hnd H1 H2. revert out2 H2.
  assert (forall x, x ∈ out1 -> x ∈ df) as Hsub1 by (intros x; rewrite H1; auto).
  clear H1. induction out1 as [|x out1 IH]; intros out2 H2 Hk;
    destruct out2 as [|y out2]; try discriminate; [reflexivity |].
  simpl in Hk. injection Hk as Hxy Hk.
  assert (x = y) as ->.
  { apply (NoDup_map_inj_on key df); [exact Hnd | apply Hsub1; left | | exact Hxy].
    rewrite <- H2. left. }
  f_equal.
  assert (forall z, z ∈ out2 -> z ∈ df) as Hsub2
    by (intros z Hz; rewrite <- H2; right; exact Hz).
  clear H2 Hxy.
  assert (forall z, z ∈ out1 -> z ∈ df) as Hsub1'
    by (intros z Hz; apply Hsub1; right; exact Hz).
  clear Hsub1 IH.
  revert out2 Hk Hsub2. induction out1 as [|a out1 IH]; intros out2 Hk Hsub2;
    destruct out2 as [|b out2]; try discriminate; [reflexivity |].
  simpl in Hk. injection Hk as Hab Hk.
  assert (a = b) as ->.
  { apply (NoDup_map_inj_on key df); [exact Hnd | apply Hsub1'; left
                                       | apply Hsub2; left | exact Hab]. }
  f_equal. apply IH; [intros z Hz; apply Hsub1'; right; exact Hz | exact Hk |].
  intros z Hz. apply Hsub2. right. exact Hz.
Qed.

Lemma ordered_rearrangement_unique {A} (key : A -> Z) (ascending : bool)
      (df out1 out2 : list A) :
  NoDup (map key df) ->
  Permutation out1 df -> ordered_by key ascending out1 ->
  Permutation out2 df -> ordered_by key ascending out2 ->
  out1 = out2.
Proof.
  intros Hnd P1 O1 P2 O2.
  apply (same_keys_same_rows key df); try assumption.
  unfold ordered_by in *.
  apply (StronglySorted_unique_strong (if ascending then Z.le else Z.ge));
    try assumption.
  - intros x y _ _. destruct ascending; lia.
  - apply Permutation_map. rewrite P1, P2. reflexivity.
Qed.

Lemma sample_revenues_distinct :
  NoDup (map (sort_column By_YTD_Revenue) sample_df).
Proof.
  assert (map (sort_column By_YTD_Revenue) sample_df
          = [2833; 4835; 1933; 4777; 5383; 3877; 3779]) as -> by (vm_compute; reflexivity).
  apply (bool_decide_unpack (NoDup [2833; 4835; 1933; 4777; 5383; 3877; 3779])).
  vm_compute. exact I.
Qed.

(** X9.  When no two rows share the sort key, the sorted view does not
    depend on the sorting algorithm: any two algorithms give the same
    view, in either direction. *)
Theorem sorted_view_unique_without_ties
    {Algo1 Algo2 : ArgSort} (Laws1 : ArgSortLaws Algo1) (Laws2 : ArgSortLaws Algo2)
    {S} (o : sort_option) (ascending : bool) (df : DataFrame) :
  NoDup (map (sort_column o) df) ->
  forall s : S,
  exists out,
    sort_values (Algo := Algo1) (sort_column o) ascending df s = Return out s
    /\ sort_values (Algo := Algo2) (sort_column o) ascending df s = Return out s.
Proof.
  intros Hnd s.
  destruct (sort_values_spec (Algo := Algo1) (sort_column o) ascending df s)
    as (out1 & s1 & E1 & P1 & O1).
  destruct (sort_values_spec (Algo := Algo2) (sort_column o) ascending df s)
    as (out2 & s2 & E2 & P2 & O2).
  pose proof (leaves_state_sort_values (Algo := Algo1) (sort_column o) ascending df s)
    as L1. rewrite E1 in L1. simpl in L1. subst s1.
  pose proof (leaves_state_sort_values (Algo := Algo2) (sort_column o) ascending df s)
    as L2. rewrite E2 in L2. simpl in L2. subst s2.
  exists out1. split; [exact E1 |].
  rewrite E2. f_equal.
  symmetry. eapply ordered_rearrangement_unique; eassumption.
Qed.

Lemma sorted_view_unique_without_ties_witness :
  ArgSortLaws insertion_argsort /\ ArgSortLaws backward_argsort
  /\ NoDup (map (sort_column By_YTD_Revenue) sample_df)
  /\ exists out,
       sort_values (Algo := insertion_argsort) (sort_column By_YTD_Revenue) false
         sample_df tt = Return out tt
       /\ sort_values (Algo := backward_argsort) (sort_column By_YTD_Revenue) false
            sample_df tt = Return out tt.
Proof.
  split; [exact insertion_argsort_laws |]. split; [exact backward_argsort_laws |].
  split; [exact sample_revenues_distinct |].
  exact (sorted_view_unique_without_ties insertion_argsort_laws backward_argsort_laws
           By_YTD_Revenue false sample_df sample_revenues_distinct tt).
Defined.

(** X10.  When no two rows share the sort key, the ascending view is the
    descending view read backwards. *)
Theorem ascending_is_descending_reversed
    {Algo : ArgSort} (Laws : ArgSortLaws Algo) {S}
    (o : sort_option) (df : DataFrame) :
  NoDup (map (sort_column o) df) ->
  forall s : S,
  exists up down,
    sort_values (sort_column o) true df s = Return up s
    /\ sort_values (sort_column o) false df s = Return down s
    /\ up = rev down.
Proof.
  intros Hnd s.
  destruct (sort_values_spec (sort_column o) true df s) as (up & s1 & E1 & P1 & O1).
  destruct (sort_values_spec (sort_column o) false df s) as (down & s2 & E2 & P2 & O2).
  pose proof (leaves_state_sort_values (sort_column o) true df s) as L1.
  rewrite E1 in L1. simpl in L1. subst s1.
  pose proof (leaves_state_sort_values (sort_column o) false df s) as L2.
  rewrite E2 in L2. simpl in L2. subst s2.
  exists up, down. split; [exact E1 |]. split; [exact E2 |].
  apply (ordered_rearrangement_unique (sort_column o) true df); try assumption.
  - rewrite <- Permutation_rev. exact P2.
  - unfold ordered_by in *. rewrite map_rev.
    apply StronglySorted_rev_flip in O2.
    eapply StronglySorted_map_in with (f := id) in O2.
    + rewrite map_id in O2. exact O2.
    + intros x y _ _ Hxy. unfold id. simpl in Hxy. lia.
Qed.

Lemma ascending_is_descending_reversed_witness :
  ArgSortLaws insertion_argsort
  /\ NoDup (map (sort_column By_YTD_Revenue) sample_df)
  /\ exists up down,
       sort_values (Algo := insertion_argsort) (sort_column By_YTD_Revenue) true
         sample_df tt = Return up tt
       /\ sort_values (Algo := insertion_argsort) (sort_column By_YTD_Revenue) false
            sample_df tt = Return down tt
       /\ up = rev down.
Proof.
  split; [exact insertion_argsort_laws |]. split; [exact sample_revenues_distinct |].
  exact (ascending_is_descending_reversed insertion_argsort_laws
           By_YTD_Revenue sample_df sample_revenues_distinct tt).
Defined.

(** With ties the two views need not mirror each other: on the sample
    table, sorted by rating with the insertion sort, P203 comes before P206
    in both. *)
Example ties_break_the_mirror :
  match generate_initial_data sample_world with
  | Return df _ =>
      match sort_values (Algo := insertion_argsort) Rating true df tt,
            sort_values (Algo := insertion_argsort) Rating false df tt with
      | Return up _, Return down _ => bool_decide (map ID up = rev (map ID down))
      | _, _ => true
      end
  | Raise _ _ => true
  end = false.
Proof. vm_compute. reflexivity. Qed.

(** * Product deep dive *)

Lemma filter_first {A} (P : A -> Prop) `{forall x, Decision (P x)} (l : list A) :
  match filter P l with
  | [] => Forall (fun x => ~ P x) l
  | r :: _ => exists pre post,
                l = pre ++ r :: post /\ P r /\ Forall (fun x => ~ P x) pre
  end.
Proof.
  induction l as [|x l IH]; [constructor |].
  rewrite filter_cons. destruct (decide (P x)) as [Hx | Hx].
  - exists [], l. split; [reflexivity |]. split; [exact Hx | constructor].
  - destruct (filter P l) as [|r rest].
    + constructor; assumption.
    + destruct IH as (pre & post & -> & Hr & Hpre).
      exists (x :: pre), post. split; [reflexivity |]. split; [exact Hr |].
      constructor; assumption.
Qed.

Lemma select_product_spec {S} (df : DataFrame) (selected_name : string) (s : S) :
  (In selected_name (map Name df) ->
   exists r pre post,
     select_product df selected_name s = Return r s
     /\ df = pre ++ r :: post /\ Name r = selected_name
     /\ Forall (fun p => Name p <> selected_name) pre)
  /\ (~ In selected_name (map Name df) ->
      select_product df selected_name s = Raise IndexError s).
Proof.
  unfold select_product.
  pose proof (filter_first (fun r => Name r = selected_name) df) as Hf.
  destruct (filter (fun r => Name r = selected_name) df) as [|r rest]; split.
  - intros Hin. exfalso. apply in_map_iff in Hin as (r & Hr & Hin).
    rewrite List.Forall_forall in Hf. exact (Hf r Hin Hr).
  - reflexivity.
  - intros _. destruct Hf as (pre & post & E & Hr & Hpre).
    exists r, pre, post. auto.
  - intros Hnot. exfalso. destruct Hf as (pre & post & E & Hr & _).
    apply Hnot. apply in_map_iff. exists r. split; [exact Hr |].
    rewrite E. apply in_or_app. right. left. reflexivity.
Qed.

(** X11.  Selecting a product by name returns the first row with that
    name when there is one, and raises [IndexError] when there is none. *)
Theorem select_product_first_match {S} (df : DataFrame) (selected_name : string) (s : S) :
  (In selected_name (map Name df) ->
   exists r pre post,
     select_product df selected_name s = Return r s
     /\ df = pre ++ r :: post /\ Name r = selected_name
     /\ Forall (fun p => Name p <> selected_name) pre)
  /\ (~ In selected_name (map Name df) ->
      select_product df selected_name s = Raise IndexError s).
Proof. apply select_product_spec. Qed.

Lemma pd_DataFrame_columns_same_length {S A B C}
      (c1 : list A) (c2 : list B) (c3 : list C) (s : S) :
  length c1 = length c2 -> length c2 = length c3 ->
  exists rows,
    pd_DataFrame_columns c1 c2 c3 s = Return rows s
    /\ map (fun t => t.1.1) rows = c1
    /\ map (fun t => t.1.2) rows = c2
    /\ map snd rows = c3.
Proof.
  intros H12 H23. unfold pd_DataFrame_columns.
  rewrite H12, H23, !Nat.eqb_refl. simpl.
  exists (zip (zip c1 c2) c3). split; [reflexivity |].
  clear s. revert c2 c3 H12 H23. induction c1 as [|x c1 IH]; intros [|y c2] [|z c3] H12 H23;
    try discriminate; simpl; [auto |].
  injection H12 as H12. injection H23 as H23.
  destruct (IH c2 c3 H12 H23) as (E1 & E2 & E3).
  rewrite E1, E2, E3. auto.
Qed.

(** X12.  The frame behind the monthly chart is built exactly when both
    trends of the product have twelve entries: it then pairs the twelve
    months of 2023, in order, with the revenue and units of each month;
    with any other length the constructor raises [ValueError]. *)
Theorem trend_df_needs_twelve_months {S} (product : product) (s : S) :
  (length (Revenue_Trend product) = 12%nat /\ length (Units_Trend product) = 12%nat ->
   exists rows,
     trend_df product s = Return rows s
     /\ map (fun t => t.1.1) rows
        = ["2023-01-01"; "2023-02-01"; "2023-03-01"; "2023-04-01"; "2023-05-01";
           "2023-06-01"; "2023-07-01"; "2023-08-01"; "2023-09-01"; "2023-10-01";
           "2023-11-01"; "2023-12-01"]%string
     /\ map (fun t => t.1.2) rows = Revenue_Trend product
     /\ map snd rows = Units_Trend product)
  /\ (length (Revenue_Trend product) <> 12%nat
      \/ length (Units_Trend product) <> 12%nat ->
      trend_df product s
      = Raise (ValueError "All arrays must be of the same length") s).
Proof.
  unfold trend_df. split.
  - intros [HR HU].
    destruct (pd_DataFrame_columns_same_length month_labels (Revenue_Trend product)
                (Units_Trend product) s) as (rows & E & E1 & E2 & E3).
    { rewrite HR. reflexivity. }
    { rewrite HR, HU. reflexivity. }
    exists rows. rewrite E1. auto.
  - intros Hne. unfold pd_DataFrame_columns.
    change (length month_labels) with 12%nat.
    destruct (Nat.eqb_spec 12 (length (Revenue_Trend product))) as [E1 | _];
      [| reflexivity].
    destruct (Nat.eqb_spec (length (Revenue_Trend product))
                (length (Units_Trend product))) as [E2 | _]; [| reflexivity].
    exfalso. destruct Hne as [H | H]; apply H; congruence.
Qed.

Lemma trend_df_needs_twelve_months_witness :
  (length (Revenue_Trend (Product "P1" "n" "c" 0 0 [1] [2] 40 "Low" ∅ 90)) <> 12%nat
   \/ length (Units_Trend (Product "P1" "n" "c" 0 0 [1] [2] 40 "Low" ∅ 90)) <> 12%nat)
  /\ trend_df (Product "P1" "n" "c" 0 0 [1] [2] 40 "Low" ∅ 90) tt
     = Raise (ValueError "All arrays must be of the same length") tt.
Proof.
  split; [left; simpl; lia |].
  apply (proj2 (trend_df_needs_twelve_months
                  (Product "P1" "n" "c" 0 0 [1] [2] 40 "Low" ∅ 90) tt)).
  left. simpl. lia.
Defined.

Lemma stock_color_known (stock : string) :
  In stock ["In Stock"; "Low"; "Out"]%string ->
  In (stock_color stock) ["green"; "orange"; "red"]%string.
Proof.
  intros [<- | [<- | [<- | []]]]; vm_compute; auto.
Qed.

Lemma row_from_deep_dive_facts i name r :
  row_from i name r ->
  Name r = name
  /\ Channels_pct r <> ∅
  /\ length (Revenue_Trend r) = 12%nat /\ length (Units_Trend r) = 12%nat.
Proof.
  intros Hr. destruct Hr as [rev_d units_d dist cat u stock target
    _ Rlen _ _ Ulen _ Dlen _ _ _].
  cbn [Name Channels_pct Revenue_Trend Units_Trend].
  split; [reflexivity |]. split; [| rewrite !length_walk; auto].
  destruct dist as [|a [|b [|c [|d [|e dist]]]]]; try discriminate Dlen.
  change (map round1 [a; b; c; d]) with [round1 a; round1 b; round1 c; round1 d].
  rewrite channel_dict. apply insert_non_empty.
Qed.

(** X13.  On the generated table the deep dive never fails and never
    falls back: for every name offered by the select box it shows the row
    of that name, a stock colour that is green, orange or red (never
    grey), the donut of the row's channel shares (never "no channel
    data"), and the twelve-month frame of the row's two trends. *)
Theorem deep_dive_of_generated_table {S} :
  always_returns generate_initial_data
    (fun df =>
       forall selected_name, In selected_name (map Name df) ->
         always_returns (S := S) (deep_dive df selected_name)
           (fun v =>
              In (dd_product v) df
              /\ Name (dd_product v) = selected_name
              /\ In (dd_stock_color v) ["green"; "orange"; "red"]%string
              /\ dd_channels v = Donut (Channels_pct (dd_product v))
              /\ length (dd_trend v) = 12%nat
              /\ map (fun t => t.1.2) (dd_trend v) = Revenue_Trend (dd_product v)
              /\ map snd (dd_trend v) = Units_Trend (dd_product v))).
Proof.
  eapply always_returns_weaken.
  { apply (generate_initial_data_each_attrs
             (fun r => In (Stock r) ["In Stock"; "Low"; "Out"]%string
                       /\ Channels_pct r <> ∅
                       /\ length (Revenue_Trend r) = 12%nat
                       /\ length (Units_Trend r) = 12%nat)).
    intros i name r Hr Ha. split; [apply Ha |].
    apply row_from_deep_dive_facts in Hr. tauto. }
  intros df Hall selected_name Hsel s. unfold deep_dive, bind.
  destruct (select_product_spec df selected_name s) as [Hfound _].
  destruct (Hfound Hsel) as (r & pre & post & E & Hdf & Hname & _).
  rewrite E.
  assert (In r df) as Hin by (rewrite Hdf; apply in_or_app; right; left; reflexivity).
  rewrite List.Forall_forall in Hall.
  destruct (Hall r Hin) as (Hstock & Hchan & HR & HU).
  destruct (pd_DataFrame_columns_same_length month_labels (Revenue_Trend r)
              (Units_Trend r) s) as (rows & Et & E1 & E2 & E3);
    [rewrite HR; reflexivity | rewrite HR, HU; reflexivity |].
  fold (trend_df (S := S) r) in Et.
  rewrite Et. eexists _, _. split; [reflexivity |]. cbn.
  split; [exact Hin |]. split; [exact Hname |].
  split; [apply stock_color_known, Hstock |].
  split; [unfold channel_share_section; destruct (decide _); [contradiction | reflexivity] |].
  split; [| auto].
  apply (f_equal length) in E2. rewrite length_map in E2. congruence.
Qed.

(** * Card details *)

Lemma progress_value_bounds (t : Z) :
  (progress_value t <= 1)%Q
  /\ (0 <= t -> (0 <= progress_value t)%Q)
  /\ (t < 0 -> (progress_value t < 0)%Q)
  /\ (60 <= t -> (3 # 5 <= progress_value t)%Q)
  /\ (100 <= t <-> (progress_value t == 1)%Q).
Proof.
  unfold progress_value.
  assert (forall z : Z, inject_Z z / 100 == inject_Z z * (1 # 100))%Q as Hdiv
    by (intros; field).
  rewrite Hdiv.
  assert (inject_Z (Z.min t 100) <= 100)%Q as Hmax.
  { change 100%Q with (inject_Z 100). rewrite <- Zle_Qle. lia. }
  split; [lra |]. split; [| split; [| split]].
  - intros Ht. assert (inject_Z 0 <= inject_Z (Z.min t 100))%Q as H
      by (rewrite <- Zle_Qle; lia).
    change (inject_Z 0) with 0%Q in H. lra.
  - intros Ht. assert (inject_Z (Z.min t 100) < inject_Z 0)%Q as H
      by (rewrite <- Zlt_Qlt; lia).
    change (inject_Z 0) with 0%Q in H. lra.
  - intros Ht. assert (inject_Z 60 <= inject_Z (Z.min t 100))%Q as H
      by (rewrite <- Zle_Qle; lia).
    change (inject_Z 60) with 60%Q in H. lra.
  - split.
    + intros Ht. rewrite Z.min_r by lia. reflexivity.
    + intros Heq. destruct (Z.le_gt_cases 100 t) as [H | H]; [exact H | exfalso].
      assert (inject_Z (Z.min t 100) < inject_Z 100)%Q as Hlt
        by (rewrite <- Zlt_Qlt; lia).
      change (inject_Z 100) with 100%Q in Hlt. lra.
Qed.

Lemma st_progress_spec {S} (value : Q) (s : S) :
  ((0 <= value <= 1)%Q -> st_progress value s = Return tt s)
  /\ ((value < 0 \/ 1 < value)%Q -> st_progress value s = Raise StreamlitAPIException s).
Proof.
  unfold st_progress. split.
  - intros [H0 H1]. apply Qle_bool_iff in H0, H1. rewrite H0, H1. reflexivity.
  - intros Hout.
    destruct (Qle_bool 0 value) eqn:E0; [| reflexivity].
    destruct (Qle_bool value 1) eqn:E1; [| reflexivity].
    apply Qle_bool_iff in E0, E1. exfalso. destruct Hout; lra.
Qed.

(** X14.  The progress bar of a card is accepted exactly when the target
    percentage is not negative: the bar is then at most full, and full
    exactly from 100 up; a negative percentage makes [st.progress] raise.
    On the generated table every card gets a bar, between 60 % and full. *)
Theorem card_progress_accepted_iff_nonnegative {S} :
  (forall (prod_data : product) (s : S),
      (0 <= Target_Met_pct prod_data ->
       card_progress prod_data s = Return tt s
       /\ (0 <= progress_value (Target_Met_pct prod_data) <= 1)%Q
       /\ (100 <= Target_Met_pct prod_data
           <-> (progress_value (Target_Met_pct prod_data) == 1)%Q))
      /\ (Target_Met_pct prod_data < 0 ->
          card_progress prod_data s = Raise StreamlitAPIException s))
  /\ always_returns generate_initial_data
       (Forall (fun r =>
          (forall s : S, card_progress r s = Return tt s)
          /\ (3 # 5 <= progress_value (Target_Met_pct r) <= 1)%Q)).
Proof.
  split.
  - intros prod_data s. unfold card_progress.
    destruct (progress_value_bounds (Target_Met_pct prod_data))
      as (H1 & H0 & Hneg & _ & Hfull).
    destruct (st_progress_spec (progress_value (Target_Met_pct prod_data)) s)
      as [Hok Hbad].
    split.
    + intros Ht. specialize (H0 Ht). split; [apply Hok; split; assumption |].
      split; [split; assumption | exact Hfull].
    + intros Ht. apply Hbad. left. apply Hneg, Ht.
  - apply generate_initial_data_each_attrs. intros i name r _ (_ & _ & Ht).
    destruct (progress_value_bounds (Target_Met_pct r)) as (H1 & H0 & _ & H60 & _).
    split.
    + intros s. unfold card_progress. apply st_progress_spec.
      split; [apply H0; lia | exact H1].
    + split; [apply H60; lia | exact H1].
Qed.

(** X15.  A higher target percentage never gets a worse status, whatever
    the two thresholds. *)
Theorem status_emoji_monotone (t1 t2 good warn : Z) :
  t1 <= t2 ->
  status_rank (status_emoji t1 good warn) <= status_rank (status_emoji t2 good warn).
Proof.
  intros Hle. unfold status_emoji.
  destruct (Z.leb_spec good t1), (Z.leb_spec good t2),
           (Z.leb_spec warn t1), (Z.leb_spec warn t2); simpl; lia.
Qed.

Lemma status_emoji_monotone_witness :
  70 <= 90
  /\ status_rank (status_emoji 70 100 80) <= status_rank (status_emoji 90 100 80).
Proof. split; [lia | apply status_emoji_monotone; lia]. Defined.

(** X16.  When the warning threshold is not below the good threshold, no
    percentage is ever classified Warning: the status is Good from the
    good threshold up and Needs Improvement below it. *)
Theorem status_emoji_without_warning_band (target_met_val good warn : Z) :
  good <= warn ->
  status_emoji target_met_val good warn <> Warning
  /\ (status_emoji target_met_val good warn = Good <-> good <= target_met_val)
  /\ (status_emoji target_met_val good warn = Needs_Improvement
      <-> target_met_val < good).
Proof.
  intros Hgw. unfold status_emoji.
  destruct (Z.leb_spec good target_met_val), (Z.leb_spec warn target_met_val);
    repeat split; intros; try discriminate; try lia; reflexivity.
Qed.

Lemma status_emoji_without_warning_band_witness :
  80 <= 100 /\ status_emoji 90 80 100 = Good.
Proof.
  split; [lia |].
  apply (proj1 (proj2 (status_emoji_without_warning_band 90 80 100 ltac:(lia)))). lia.
Defined.

(** * The layout of the grid *)

Lemma comparison_grid_spec {S} (ui : widgets) (df : DataFrame) :
  1 <= num_comparison_cols ui ->
  always_returns (S := S) (comparison_grid ui df)
    (Forall2 (fun x c =>
       card_product c = x.2
       /\ Z.of_nat (card_column c) = Z.of_nat x.1 mod num_comparison_cols ui)
     (enumerate df)).
Proof.
  intros Hlo. unfold comparison_grid.
  eapply always_returns_bind
    with (P := fun cols => cols = seq 0 (Z.to_nat (num_comparison_cols ui))).
  { unfold st_columns. destruct (Z.leb_spec (num_comparison_cols ui) 0); [lia |].
    apply always_returns_ret. reflexivity. }
  intros ? ->.
  apply always_returns_for_each with
    (P := fun (x : nat * product) c =>
       card_product c = x.2
       /\ Z.of_nat (card_column c) = Z.of_nat x.1 mod num_comparison_cols ui).
  intros [i prod_data] _.
  eapply always_returns_weaken; [apply place_card_in_bounds, Hlo |].
  intros c (H1 & H2 & _). auto.
Qed.


Lemma grid_columns_and_products (n : Z) (df : DataFrame) (grid : list card) :
  forall s,
    Forall2 (fun (x : nat * product) c =>
       card_product c = x.2 /\ Z.of_nat (card_column c) = Z.of_nat x.1 mod n)
      (zip (seq s (length df)) df) grid ->
    map card_product grid = df
    /\ map card_column grid
       = map (fun i => Z.to_nat (Z.of_nat i mod n)) (seq s (length df)).
Proof.
  revert grid. induction df as [|r df IH]; intros grid s H; simpl in H.
  - inversion H. auto.
  - inversion H as [|x c xs grid' [Hp Hc] Hrest]; subst. simpl in *.
    destruct (IH _ _ Hrest) as [E1 E2]. rewrite E1, E2, Hp.
    split; [reflexivity |]. f_equal. rewrite <- Hc. symmetry. apply Nat2Z.id.
Qed.

Lemma div_mod_succ (n M : Z) :
  1 <= n -> 0 <= M ->
  (M mod n = n - 1 /\ (M + 1) / n = M / n + 1 /\ (M + 1) mod n = 0)
  \/ (M mod n < n - 1 /\ (M + 1) / n = M / n /\ (M + 1) mod n = M mod n + 1).
Proof.
  intros Hn HM.
  pose proof (Z.div_mod M n ltac:(lia)) as Hdm.
  pose proof (Z.mod_pos_bound M n ltac:(lia)) as Hb.
  destruct (Z.eq_dec (M mod n) (n - 1)) as [Hr | Hr].
  - left. split; [exact Hr |]. split.
    + symmetry. apply (Z.div_unique (M + 1) n (M / n + 1) 0); lia.
    + symmetry. apply (Z.mod_unique (M + 1) n (M / n + 1) 0); lia.
  - right. split; [lia |]. split.
    + symmetry. apply (Z.div_unique (M + 1) n (M / n) (M mod n + 1)); lia.
    + symmetry. apply (Z.mod_unique (M + 1) n (M / n) (M mod n + 1)); lia.
Qed.

Lemma round_robin_count (n : Z) (c m : nat) :
  1 <= n -> Z.of_nat c < n ->
  Z.of_nat (length (filter (fun j => j = c)
                      (map (fun i => Z.to_nat (Z.of_nat i mod n)) (seq 0 m))))
  = Z.of_nat m / n + (if Z.of_nat c <? Z.of_nat m mod n then 1 else 0).
Proof.
  intros Hn Hc. induction m as [|m IH].
  - simpl. rewrite Z.div_0_l, Z.mod_0_l by lia.
    destruct (Z.ltb_spec (Z.of_nat c) 0); lia.
  - rewrite seq_S, map_app, filter_app, length_app, Nat2Z.inj_add, IH.
    rewrite Nat2Z.inj_succ. unfold Z.succ. cbn [map Nat.add].
    pose proof (Z.mod_pos_bound (Z.of_nat m) n ltac:(lia)) as Hb.
    rewrite filter_cons, filter_nil.
    destruct (div_mod_succ n (Z.of_nat m) Hn ltac:(lia))
      as [(Hr & Hq & Hr') | (Hr & Hq & Hr')]; rewrite Hq, Hr';
      destruct (decide (Z.to_nat (Z.of_nat m mod n) = c)) as [E | E];
      destruct (Z.ltb_spec (Z.of_nat c) (Z.of_nat m mod n));
      destruct (Z.ltb_spec (Z.of_nat c) 0);
      try destruct (Z.ltb_spec (Z.of_nat c) (Z.of_nat m mod n + 1));
      simpl length; lia.
Qed.

Lemma filter_map_length {A B} (g : A -> B) (P : B -> Prop)
      `{forall y, Decision (P y)} (l : list A) :
  length (filter (fun x => P (g x)) l) = length (filter P (map g l)).
Proof.
  induction l as [|x l IH]; [reflexivity |].
  cbn [map]. rewrite !filter_cons. destruct (decide (P (g x))); simpl; lia.
Qed.

(** X17.  The cards are dealt to the columns in turn.  With [n >= 1]
    columns and [m] rows, the grid holds the rows of the sorted view in
    order, and column [c] holds [m / n] cards, plus one if [c < m mod n]:
    no column holds two cards more than another. *)
Theorem cards_are_dealt_round_robin {S} (ui : widgets) (df : DataFrame) :
  1 <= num_comparison_cols ui ->
  always_returns (S := S) (comparison_grid ui df)
    (fun grid =>
       map card_product grid = df
       /\ forall c : nat,
            Z.of_nat c < num_comparison_cols ui ->
            Z.of_nat (cards_in_column c grid)
            = Z.of_nat (length df) / num_comparison_cols ui
              + (if Z.of_nat c <? Z.of_nat (length df) mod num_comparison_cols ui
                 then 1 else 0)).
Proof.
  intros Hn. eapply always_returns_weaken; [apply comparison_grid_spec, Hn |].
  intros grid Hgrid. unfold enumerate in Hgrid.
  destruct (grid_columns_and_products _ _ _ _ Hgrid) as [Hp Hc].
  split; [exact Hp |]. intros c Hcn. unfold cards_in_column.
  pose proof (filter_map_length card_column (fun j => j = c) grid) as Hf.
  cbn beta in Hf. rewrite Hf, Hc.
  apply round_robin_count; assumption.
Qed.

Lemma cards_are_dealt_round_robin_witness :
  1 <= num_comparison_cols sample_widgets
  /\ exists grid,
       comparison_grid sample_widgets sample_df tt = Return grid tt
       /\ map card_product grid = sample_df
       /\ cards_in_column 0 grid = 3%nat.
Proof.
  split; [simpl; lia |].
  destruct (cards_are_dealt_round_robin (S := unit) sample_widgets sample_df
              ltac:(simpl; lia) tt) as (grid & [] & E & Hp & Hcount).
  exists grid. split; [exact E |]. split; [exact Hp |].
  specialize (Hcount 0%nat ltac:(simpl; lia)).
  apply Nat2Z.inj. rewrite Hcount.
  assert (length sample_df = 7%nat) as -> by (vm_compute; reflexivity).
  reflexivity.
Defined.

(** * A whole run *)




(** * A name without a category *)


